(** * ZJA-pptclean: the curation core of [ppt_to_pdf_app.py]

    A shallow embedding of the parts of the program that decide which
    images survive curation and how they are assembled:

    - [natural_sort_key] and the sort that uses it,
    - the per-thumbnail state ([ThumbnailWidget]) and the main-window
      operations that drive it,
    - the three worker tasks [watermark_check_task],
      [animation_check_task] and [create_pdf_task].

    [natural_sort_key] is written out for plain strings (ASCII text
    within the length [int] accepts), where [str.isdigit] and the
    regular expression class [\d] agree and [int] never fails; what
    line 28 does on other strings, where it can raise [ValueError], is
    the parameter [PyText], and the sort of the loading task goes
    through it.  The image libraries (PIL, OpenCV, imagehash),
    [os.path] and the folder are parameters of the model as well: each
    call that can raise returns a [result]. *)

From Stdlib Require Import ZArith NArith QArith String Ascii List Bool Lia.
From Stdlib Require Import Sorting.Sorted Sorting.Permutation.
From stdpp Require Import base option list gmap sets strings.

Local Open Scope string_scope.
Local Open Scope list_scope.

(** ** Python values that occur in a sort key *)

Inductive pyval : Type :=
| PyInt (n : Z)
| PyStr (s : string).

#[global] Instance pyval_eq_dec : EqDecision pyval.
Proof. solve_decision. Defined.

(** [a == b]. *)
Definition pyval_eqb (a b : pyval) : bool :=
  match a, b with
  | PyInt m, PyInt n => Z.eqb m n
  | PyStr s, PyStr t => String.eqb s t
  | _, _ => false
  end.

(** [a < b] on Python values: [None] is the [TypeError] raised when an
    [int] meets a [str]. *)
Definition pyval_lt (a b : pyval) : option bool :=
  match a, b with
  | PyInt m, PyInt n => Some (Z.ltb m n)
  | PyStr s, PyStr t => Some (String.ltb s t)
  | _, _ => None
  end.

(** [a < b] on Python lists: the first position where the elements are
    not [==] decides; with none, the shorter list is the smaller. *)
Fixpoint pylist_lt (a b : list pyval) : option bool :=
  match a, b with
  | [], [] => Some false
  | [], _ :: _ => Some true
  | _ :: _, [] => Some false
  | x :: a', y :: b' =>
      if pyval_eqb x y then pylist_lt a' b' else pyval_lt x y
  end.

(** ** [natural_sort_key] *)

Module NaturalOrdering.

(** The character class [\d] on ASCII text. *)
Definition is_digit (c : ascii) : bool :=
  let n := nat_of_ascii c in (48 <=? n)%nat && (n <=? 57)%nat.

Definition digit_value (c : ascii) : Z := Z.of_nat (nat_of_ascii c) - 48.

(** [re.split(r'(\d+)', s)]: the text before the first digit run, then
    alternately a digit run and the text after it.  The list starts and
    ends with a text piece, which is empty when [s] starts or ends with
    a digit. *)
Fixpoint re_split_digits (s : string) : list string :=
  match s with
  | EmptyString => [EmptyString]
  | String c s' =>
      let r := re_split_digits s' in
      if is_digit c then
        match r with
        | EmptyString :: d :: rest => EmptyString :: String c d :: rest
        | _ => EmptyString :: String c EmptyString :: r
        end
      else
        match r with
        | t :: rest => String c t :: rest
        | [] => [String c EmptyString]
        end
  end.

Fixpoint all_digits (s : string) : bool :=
  match s with
  | EmptyString => true
  | String c s' => is_digit c && all_digits s'
  end.

(** [str.isdigit]: false on the empty string. *)
Definition isdigit (s : string) : bool :=
  match s with
  | EmptyString => false
  | _ => all_digits s
  end.

Fixpoint int_acc (acc : Z) (s : string) : Z :=
  match s with
  | EmptyString => acc
  | String c s' => int_acc (10 * acc + digit_value c) s'
  end.

(** [int(text)] on a run of decimal digits. *)
Definition int (s : string) : Z := int_acc 0 s.

Definition lower_char (c : ascii) : ascii :=
  let n := nat_of_ascii c in
  if (65 <=? n)%nat && (n <=? 90)%nat then ascii_of_nat (n + 32) else c.

(** [str.lower]. *)
Fixpoint lower (s : string) : string :=
  match s with
  | EmptyString => EmptyString
  | String c s' => String (lower_char c) (lower s')
  end.

Definition key_of_piece (text : string) : pyval :=
  if isdigit text then PyInt (int text) else PyStr (lower text).

Definition natural_sort_key (s : string) : list pyval :=
  map key_of_piece (re_split_digits s).

(** The comparison [list.sort(key=natural_sort_key)] performs. *)
Definition key_lt (s t : string) : option bool :=
  pylist_lt (natural_sort_key s) (natural_sort_key t).

(** No [TypeError] can arise between two keys (lemma
    [key_lt_defined]), so the comparison is read as a boolean. *)
Definition natural_ltb (s t : string) : bool :=
  match key_lt s t with
  | Some b => b
  | None => false
  end.

(** [s] does not sort after [t]. *)
Definition natural_le (s t : string) : Prop := natural_ltb t s = false.

(** [list.sort(key=natural_sort_key)] is a stable sort that only asks
    [<] of the keys; on a total preorder every stable sort returns the
    same list, and the model sorts by insertion.  [x] stood before every
    element of [l], so it goes in front of the first element that is not
    smaller. *)
Fixpoint insert_natural (x : string) (l : list string) : list string :=
  match l with
  | [] => [x]
  | y :: l' =>
      if natural_ltb y x then y :: insert_natural x l' else x :: l
  end.

Definition sort_natural (l : list string) : list string :=
  fold_right insert_natural [] l.

End NaturalOrdering.

Import NaturalOrdering.

(** ** Exceptions and the libraries the program calls *)

Inductive exn : Type :=
| KeyError (key : string)
| Exception (msg : string).

Inductive result (A : Type) : Type :=
| Ok (a : A)
| Raise (e : exn).

Arguments Ok {A} a.
Arguments Raise {A} e.

(** [os.path.basename] and [os.path.join]. *)
Class OsPath : Type := {
  basename : string → string;
  join : string → string → string
}.

(** PIL, OpenCV and imagehash, as far as the tasks use them.
    - [open_gray p] is [np.array(Image.open(p).convert('L'))];
    - [match_max img tpl] is the maximum of
      [cv2.matchTemplate(img, tpl, cv2.TM_CCOEFF_NORMED)], a finite
      float held as a rational;
    - [open_phash p] is [imagehash.phash(Image.open(p))], a 64-bit hash
      held as the number with those bits;
    - [open_rgb p] is [Image.open(p).convert("RGB")];
    - [save_error path pages] tells whether writing the PDF raises. *)
Class ImageLib : Type := {
  gray_image : Type;
  rgb_image : Type;
  open_gray : string → result gray_image;
  match_max : gray_image → gray_image → result Q;
  open_phash : string → result N;
  open_rgb : string → result rgb_image;
  save_error : string → list rgb_image → option exn
}.

Fixpoint popcount_pos (p : positive) : nat :=
  match p with
  | xH => 1
  | xO p' => popcount_pos p'
  | xI p' => S (popcount_pos p')
  end.

Definition popcount (n : N) : nat :=
  match n with
  | N0 => 0
  | Npos p => popcount_pos p
  end.

(** [hash_prev - hash_curr]: the number of differing bits. *)
Definition hash_sub (a b : N) : nat := popcount (N.lxor a b).

(** ** [ThumbnailWidget] *)

Record ThumbnailWidget : Type := mkThumbnail {
  file_path : string;
  file_name : string;
  is_selected : bool;
  is_filtered : bool
}.

Definition set_filtered (filtered : bool) (w : ThumbnailWidget) : ThumbnailWidget :=
  {| file_path := file_path w;
     file_name := file_name w;
     is_selected := if filtered then false else is_selected w;
     is_filtered := filtered |}.

Definition set_selected (selected force : bool) (w : ThumbnailWidget) : ThumbnailWidget :=
  if force then
    {| file_path := file_path w;
       file_name := file_name w;
       is_selected := selected;
       is_filtered := if selected then false else is_filtered w |}
  else if selected then
    if negb (is_filtered w) then
      {| file_path := file_path w;
         file_name := file_name w;
         is_selected := true;
         is_filtered := is_filtered w |}
    else w
  else
    {| file_path := file_path w;
       file_name := file_name w;
       is_selected := false;
       is_filtered := is_filtered w |}.

(** A click with the left button. *)
Definition mousePressEvent (w : ThumbnailWidget) : ThumbnailWidget :=
  set_selected (negb (is_selected w)) true w.

(** The calls a thumbnail accepts. *)
Inductive widget_call : Type :=
| SetFiltered (filtered : bool)
| SetSelected (selected force : bool)
| MousePress.

Definition call_widget (c : widget_call) (w : ThumbnailWidget) : ThumbnailWidget :=
  match c with
  | SetFiltered b => set_filtered b w
  | SetSelected b force => set_selected b force w
  | MousePress => mousePressEvent w
  end.

(** ** [MainWindow]: the thumbnails and the slots that change them *)

Record MainWindow : Type := mkWindow {
  image_folder : string;
  thumbnail_widgets : gmap string ThumbnailWidget;
  all_files_paths : list string
}.

Definition with_widgets (f : gmap string ThumbnailWidget → gmap string ThumbnailWidget)
    (win : MainWindow) : MainWindow :=
  {| image_folder := image_folder win;
     thumbnail_widgets := f (thumbnail_widgets win);
     all_files_paths := all_files_paths win |}.

(** [MainWindow.__init__]: no folder, no thumbnails. *)
Definition new_window : MainWindow :=
  {| image_folder := ""; thumbnail_widgets := ∅; all_files_paths := [] |}.

Section Window.
Context `{OsPath}.

(** [ThumbnailWidget.__init__]: selected, not filtered. *)
Definition new_thumbnail (path : string) : ThumbnailWidget :=
  {| file_path := path;
     file_name := basename path;
     is_selected := true;
     is_filtered := false |}.

(** The old grid is dropped and one thumbnail per path is created,
    stored under its base name. *)
Definition on_files_loaded (file_paths : list string) (win : MainWindow) : MainWindow :=
  {| image_folder := image_folder win;
     thumbnail_widgets :=
       foldl (λ m p, <[basename p := new_thumbnail p]> m) ∅ file_paths;
     all_files_paths := file_paths |}.

End Window.

(** Every thumbnail whose name is in the excluded list is marked
    filtered; the others are not touched. *)
Definition on_processing_done (task_name : string) (excluded_list : list string)
    (win : MainWindow) : MainWindow :=
  let excluded_set : gset string := list_to_set excluded_list in
  with_widgets
    (map_imap (λ name w,
       Some (if bool_decide (name ∈ excluded_set) then set_filtered true w else w)))
    win.

Definition for_all_widgets (f : ThumbnailWidget → ThumbnailWidget)
    (win : MainWindow) : MainWindow :=
  if bool_decide (thumbnail_widgets win = ∅) then win
  else with_widgets (fmap f) win.

Definition reset_all_thumbnails : MainWindow → MainWindow :=
  for_all_widgets (set_selected true true).

Definition select_visible_thumbnails : MainWindow → MainWindow :=
  for_all_widgets (set_selected true false).

Definition deselect_all_thumbnails : MainWindow → MainWindow :=
  for_all_widgets (set_selected false false).

(** A call on the thumbnail stored under [name]. *)
Definition on_widget (name : string) (c : widget_call) (win : MainWindow) : MainWindow :=
  with_widgets (alter (call_widget c) name) win.

(** What can happen to the selection state of a window. *)
Inductive action : Type :=
| FilesLoaded (file_paths : list string)
| WidgetCall (name : string) (c : widget_call)
| ProcessingDone (task_name : string) (excluded_list : list string)
| ResetAll
| SelectVisible
| DeselectAll.

Section Actions.
Context `{OsPath}.

Definition step (win : MainWindow) (a : action) : MainWindow :=
  match a with
  | FilesLoaded ps => on_files_loaded ps win
  | WidgetCall name c => on_widget name c win
  | ProcessingDone task l => on_processing_done task l win
  | ResetAll => reset_all_thumbnails win
  | SelectVisible => select_visible_thumbnails win
  | DeselectAll => deselect_all_thumbnails win
  end.

Definition run (acts : list action) (win : MainWindow) : MainWindow :=
  foldl step win acts.

(** The window before the first action and after each one. *)
Fixpoint history (acts : list action) (win : MainWindow) : list MainWindow :=
  match acts with
  | [] => [win]
  | a :: acts' => win :: history acts' (step win a)
  end.

End Actions.

(** The state invariant of one thumbnail and of a window. *)
Definition widget_ok (w : ThumbnailWidget) : Prop :=
  is_filtered w = true → is_selected w = false.

Definition window_ok (win : MainWindow) : Prop :=
  map_Forall (λ _ w, widget_ok w) (thumbnail_widgets win).

(** ** [WorkerThread]: signals *)

(** The texts sent through [log_message], one constructor per format
    string, with the values that are interpolated. *)
Inductive message : Type :=
| MsgTemplateUnreadable (watermark_path : string) (e : exn)
| MsgModeExcludeContaining (threshold : Q)
| MsgModeExcludeLacking (threshold : Q)
| MsgExcludedContains (file_name : string) (max_val : Q)
| MsgKeptLacks (file_name : string) (max_val : Q)
| MsgExcludedLacks (file_name : string) (max_val : Q)
| MsgKeptContains (file_name : string) (max_val : Q)
| MsgSkippedUnprocessable (file_name : string) (e : exn)
| MsgWatermarkDone (count : nat)
| MsgAnimationStart (threshold : Z)
| MsgAnimationCount (count : nat)
| MsgCannotProcess (file_name : string) (e : exn)
| MsgSimilar (prev_file curr_file : string) (distance : nat)
| MsgDifferent (prev_file curr_file : string) (distance : nat)
| MsgCompareError (e : exn)
| MsgAnimationDone (count : nat)
| MsgNothingToInclude
| MsgPdfStart (count : nat)
| MsgAddCover (file_name : string)
| MsgAddPage (file_name : string)
| MsgSkippedUnopenable (file_name : string) (e : exn)
| MsgPdfCreated
| MsgPdfError (e : exn).

(** The second argument of [pdf_done]. *)
Inductive pdf_detail : Type :=
| OutputPath (path : string)
| NoImagesText
| ExnText (e : exn).

Inductive signal : Type :=
| log_message (m : message)
| processing_done (task_name : string) (excluded_list : list string)
| pdf_done (status : string) (detail : pdf_detail).

Definition is_log (s : signal) : Prop :=
  match s with
  | log_message _ => True
  | _ => False
  end.

(** ** Task 2: watermark detection *)

Record watermark_params : Type := {
  wm_folder : string;
  watermark_path : string;
  wm_threshold : Q;
  file_list : list string;
  invert_logic : bool
}.

Section Watermark.
Context `{OsPath} `{ImageLib}.

(** The body of the [try] for one file: open, convert, match, take the
    maximum. *)
Definition match_score (template : gray_image) (path : string) : result Q :=
  match open_gray path with
  | Ok main_image => match_max main_image template
  | Raise e => Raise e
  end.

(** One turn of the loop over [all_files]; the state is the excluded
    set and the log lines sent so far. *)
Definition watermark_step (template : gray_image) (threshold : Q) (invert : bool)
    (st : gset string * list signal) (path : string) : gset string * list signal :=
  let '(excluded_set, sent) := st in
  let name := basename path in
  match match_score template path with
  | Ok max_val =>
      let found_watermark := Qle_bool threshold max_val in
      if invert then
        if found_watermark then
          ({[name]} ∪ excluded_set, sent ++ [log_message (MsgExcludedContains name max_val)])
        else
          (excluded_set, sent ++ [log_message (MsgKeptLacks name max_val)])
      else
        if negb found_watermark then
          ({[name]} ∪ excluded_set, sent ++ [log_message (MsgExcludedLacks name max_val)])
        else
          (excluded_set, sent ++ [log_message (MsgKeptContains name max_val)])
  | Raise e =>
      ({[name]} ∪ excluded_set, sent ++ [log_message (MsgSkippedUnprocessable name e)])
  end.

Definition watermark_scan (template : gray_image) (p : watermark_params)
    : gset string * list signal :=
  foldl (watermark_step template (wm_threshold p) (invert_logic p)) (∅, []) (file_list p).

(** [list(excluded_set)] lists the set in an order Python does not
    fix; [elements] is one such order, and the receiver turns the list
    back into a set. *)
Definition watermark_check_task (p : watermark_params) : list signal :=
  match open_gray (watermark_path p) with
  | Raise e =>
      [log_message (MsgTemplateUnreadable (watermark_path p) e);
       processing_done "watermark" []]
  | Ok template =>
      let mode :=
        if invert_logic p then MsgModeExcludeContaining (wm_threshold p)
        else MsgModeExcludeLacking (wm_threshold p) in
      let '(excluded_set, sent) := watermark_scan template p in
      log_message mode :: sent ++
        [log_message (MsgWatermarkDone (size excluded_set));
         processing_done "watermark" (elements excluded_set)]
  end.

End Watermark.

(** ** Task 3: animation frames *)

Record animation_params : Type := {
  an_folder : string;
  an_threshold : Z;
  selected_files : list string
}.

Record dedup_state : Type := {
  hash_cache : gmap string N;
  an_excluded : gset string;
  an_sent : list signal
}.

Section Animation.
Context `{OsPath} `{ImageLib}.

Definition dedup_log (st : dedup_state) (m : message) : dedup_state :=
  {| hash_cache := hash_cache st;
     an_excluded := an_excluded st;
     an_sent := an_sent st ++ [log_message m] |}.

(** The body of the loop for the pair [(prev_file, curr_file)].  The
    cache lookup comes first: when it raises [KeyError] the current
    file is neither hashed nor cached. *)
Definition compare_pair (folder : string) (threshold : Z)
    (st : dedup_state) (prev_file curr_file : string) : dedup_state :=
  match hash_cache st !! prev_file with
  | None => dedup_log st (MsgCompareError (KeyError prev_file))
  | Some hash_prev =>
      match open_phash (join folder curr_file) with
      | Raise e => dedup_log st (MsgCompareError e)
      | Ok hash_curr =>
          let distance := hash_sub hash_prev hash_curr in
          if (Z.of_nat distance <=? threshold)%Z then
            {| hash_cache := <[curr_file := hash_curr]> (hash_cache st);
               an_excluded := {[prev_file]} ∪ an_excluded st;
               an_sent := an_sent st ++
                 [log_message (MsgSimilar prev_file curr_file distance)] |}
          else
            {| hash_cache := <[curr_file := hash_curr]> (hash_cache st);
               an_excluded := an_excluded st;
               an_sent := an_sent st ++
                 [log_message (MsgDifferent prev_file curr_file distance)] |}
      end
  end.

(** [for i in range(1, len(valid_files))], walking the list with the
    previous file at hand. *)
Fixpoint compare_loop (folder : string) (threshold : Z)
    (prev_file : string) (rest : list string) (st : dedup_state) : dedup_state :=
  match rest with
  | [] => st
  | curr_file :: rest' =>
      compare_loop folder threshold curr_file rest'
        (compare_pair folder threshold st prev_file curr_file)
  end.

Definition animation_finish (sent : list signal) (excluded_set : gset string)
    : list signal :=
  sent ++ [log_message (MsgAnimationDone (size excluded_set));
           processing_done "animation" (elements excluded_set)].

Definition animation_check_task (p : animation_params) : list signal :=
  let valid_files := sort_natural (selected_files p) in
  let intro :=
    [log_message (MsgAnimationStart (an_threshold p));
     log_message (MsgAnimationCount (length valid_files))] in
  match valid_files with
  | first :: (_ :: _) as rest =>
      match open_phash (join (an_folder p) first) with
      | Raise e =>
          intro ++ [log_message (MsgCannotProcess first e);
                    processing_done "animation" []]
      | Ok h =>
          let st := compare_loop (an_folder p) (an_threshold p) first rest
                      {| hash_cache := {[first := h]};
                         an_excluded := ∅;
                         an_sent := [] |} in
          animation_finish (intro ++ an_sent st) (an_excluded st)
      end
  | _ => animation_finish intro ∅
  end.

End Animation.

(** ** Task 4: the PDF *)

Record pdf_params : Type := {
  pdf_folder : string;
  final_list : list string;
  output_path : string
}.

Section Pdf.
Context `{OsPath} `{ImageLib}.

(** What [cover.save(path, "PDF", resolution=100.0, save_all=True,
    append_images=...)] leaves at [path]. *)
Record pdf_document : Type := {
  pages : list rgb_image;
  resolution : Z
}.

(** One turn of the loop over [images_to_include[1:]]. *)
Definition add_page (folder : string) (st : list rgb_image * list signal)
    (filename : string) : list rgb_image * list signal :=
  let '(image_objects, sent) := st in
  let sent' := sent ++ [log_message (MsgAddPage filename)] in
  match open_rgb (join folder filename) with
  | Ok img => (image_objects ++ [img], sent')
  | Raise e => (image_objects, sent' ++ [log_message (MsgSkippedUnopenable filename e)])
  end.

(** The task, on the files present before it runs; it returns the
    signals it sent and the files present afterwards.  When [save]
    raises, PIL may already have truncated or removed the destination;
    the model does not follow that and returns the files as they were,
    and nothing is stated about the files after a [save] that raised. *)
Definition create_pdf_task (p : pdf_params) (fs : gmap string pdf_document)
    : list signal * gmap string pdf_document :=
  match final_list p with
  | [] =>
      ([log_message MsgNothingToInclude; pdf_done "fail" NoImagesText], fs)
  | first :: others =>
      let intro :=
        [log_message (MsgPdfStart (length (final_list p)));
         log_message (MsgAddCover first)] in
      match open_rgb (join (pdf_folder p) first) with
      | Raise e =>
          (intro ++ [log_message (MsgPdfError e); pdf_done "fail" (ExnText e)], fs)
      | Ok cover =>
          let '(image_objects, sent) :=
            foldl (add_page (pdf_folder p)) ([], intro) others in
          match save_error (output_path p) (cover :: image_objects) with
          | Some e =>
              (sent ++ [log_message (MsgPdfError e); pdf_done "fail" (ExnText e)], fs)
          | None =>
              (sent ++ [log_message MsgPdfCreated;
                        pdf_done "success" (OutputPath (output_path p))],
               <[output_path p :=
                   {| pages := cover :: image_objects; resolution := 100 |}]> fs)
          end
      end
  end.

End Pdf.


(** ** Notions used in the statements about the ordering *)

Fixpoint no_digits (s : string) : bool :=
  match s with
  | EmptyString => true
  | String c s' => negb (is_digit c) && no_digits s'
  end.

(** The text piece that follows a digit run inside the list is not
    empty: digit runs are maximal. *)
Definition inner_ok (rest : list string) : Prop :=
  match rest with
  | [] => False
  | [_] => True
  | t :: _ => t ≠ EmptyString
  end.

(** Text, digits, text, ..., text. *)
Inductive alternating : list string → Prop :=
| alt_text (t : string) :
    no_digits t = true → alternating [t]
| alt_run (t d : string) (rest : list string) :
    no_digits t = true → isdigit d = true →
    alternating rest → inner_ok rest →
    alternating (t :: d :: rest).

(** Keys: a string, then alternately a number and a string. *)
Inductive key_shape : list pyval → Prop :=
| key_text (t : string) : key_shape [PyStr t]
| key_run (t : string) (n : Z) (rest : list pyval) :
    key_shape rest → key_shape (PyStr t :: PyInt n :: rest).

(** A three-way comparison that agrees with [pyval_lt] wherever that
    one is defined; numbers are put before strings to make it total. *)
Definition pyval_compare (a b : pyval) : comparison :=
  match a, b with
  | PyInt m, PyInt n => Z.compare m n
  | PyStr s, PyStr t => String.compare s t
  | PyInt _, PyStr _ => Lt
  | PyStr _, PyInt _ => Gt
  end.

Fixpoint pylist_compare (a b : list pyval) : comparison :=
  match a, b with
  | [], [] => Eq
  | [], _ :: _ => Lt
  | _ :: _, [] => Gt
  | x :: a', y :: b' =>
      match pyval_compare x y with
      | Eq => pylist_compare a' b'
      | c => c
      end
  end.

Definition is_lt (c : comparison) : bool :=
  match c with
  | Lt => true
  | _ => false
  end.


(** Reflexive, transitive and total; ties are allowed. *)
Definition total_preorder (R : string → string → Prop) : Prop :=
  (∀ s, R s s) ∧
  (∀ s t u, R s t → R t u → R s u) ∧
  (∀ s t, R s t ∨ R t s).

(** ** Plain strings, and the others *)

(** Every character of the string is below 128.  On such a string [\d]
    and [str.isdigit] are [is_digit] and [str.lower] is [lower]. *)
Definition is_ascii_char (c : ascii) : bool :=
  match c with
  | Ascii _ _ _ _ _ _ _ b7 => negb b7
  end.

Fixpoint is_ascii (s : string) : bool :=
  match s with
  | EmptyString => true
  | String c s' => is_ascii_char c && is_ascii s'
  end.

(** [sys.int_max_str_digits]: since Python 3.11 [int] raises
    [ValueError] on a digit string longer than this default. *)
Definition int_max_str_digits : N := 4300.

(** Plain strings: ASCII text of at most 4300 characters, so that [int]
    reads every digit run.  On a plain string [natural_sort_key] above
    is what line 28 computes; every file name a folder can hold in
    ASCII is plain. *)
Definition is_plain (s : string) : bool :=
  is_ascii s && (N.of_nat (String.length s) <=? int_max_str_digits)%N.


(** Line 28 on a string that is not plain, the string held as its UTF-8
    bytes.  Outside ASCII the outcome depends on the Unicode tables: a
    text run made of characters such as [²] or [②] passes [str.isdigit]
    although [\d] does not match it, and [int] raises [ValueError] on
    it; other decimal digits are read as numbers, and [str.lower] folds
    capitals of other scripts.  On a digit run beyond the limit [int]
    raises or not with the version of Python.  The model leaves that
    outcome to a parameter: the key, or the exception.  A key that is
    returned is, like every list [re.split] gives with one group, text,
    number, text, ..., text. *)
Class PyText : Type := {
  key_otherwise : string → result (list pyval);
  key_otherwise_shape :
    ∀ s k, key_otherwise s = Ok k → key_shape k
}.

(** [natural_sort_key(s)] on any string. *)
Definition natural_sort_key_of `{PyText} (s : string) : result (list pyval) :=
  if is_plain s then Ok (natural_sort_key s) else key_otherwise s.

(** ** A concrete platform and library, to run the model on examples *)

Fixpoint has_slash (s : string) : bool :=
  match s with
  | EmptyString => false
  | String c s' => Ascii.eqb c "/" || has_slash s'
  end.

(** [posixpath.basename]: what follows the last slash. *)
Fixpoint posix_basename (s : string) : string :=
  match s with
  | EmptyString => EmptyString
  | String c s' => if has_slash s then posix_basename s' else s
  end.

Fixpoint ends_with_slash (s : string) : bool :=
  match s with
  | EmptyString => false
  | String c EmptyString => Ascii.eqb c "/"
  | String _ s' => ends_with_slash s'
  end.

(** [posixpath.join] of two components. *)
Definition posix_join (a b : string) : string :=
  match b with
  | String "/" _ => b
  | _ =>
      if String.eqb a "" || ends_with_slash a then a ++ b
      else a ++ "/" ++ b
  end.

Definition posix_path : OsPath :=
  {| basename := posix_basename; join := posix_join |}.

#[global] Instance widget_ok_dec (w : ThumbnailWidget) : Decision (widget_ok w).
Proof. unfold widget_ok. apply _. Defined.

#[global] Instance window_ok_dec (win : MainWindow) : Decision (window_ok win).
Proof. unfold window_ok. apply _. Defined.

(** A folder with three slides, after a detection excluded the first
    and the user deselected everything. *)
Definition sample_window : MainWindow :=
  @run posix_path
    [FilesLoaded ["/deck/slide1.png"; "/deck/slide2.png"; "/deck/slide10.png"];
     ProcessingDone "watermark" ["slide1.png"];
     DeselectAll]
    new_window.

(** ** Notions used in the statements about the tasks *)

(** Whether the loop body adds the file's name to the excluded set. *)
Definition step_excludes `{ImageLib} (template : gray_image) (threshold : Q)
    (invert : bool) (path : string) : bool :=
  match match_score template path with
  | Ok max_val =>
      if invert then Qle_bool threshold max_val
      else negb (Qle_bool threshold max_val)
  | Raise _ => true
  end.

(** The list carried by the terminal [processing_done] of a task. *)
Definition result_of (sent : list signal) : option (list string) :=
  match last sent with
  | Some (processing_done _ excluded_list) => Some excluded_list
  | _ => None
  end.

(** The same request with the check box "invert" set to [b]. *)
Definition with_invert (b : bool) (p : watermark_params) : watermark_params :=
  {| wm_folder := wm_folder p;
     watermark_path := watermark_path p;
     wm_threshold := wm_threshold p;
     file_list := file_list p;
     invert_logic := b |}.

(** [inverted] is the complement of [plain] among [names]. *)
Definition complement_within (names inverted plain : list string) : Prop :=
  ∀ name, name ∈ inverted ↔ name ∈ names ∧ name ∉ plain.

(** A library for the examples: every file opens except [broken.png]
    and [slide3.png]; matching raises on [tall.png], which is narrower
    but taller than the template, so that neither fits inside the other. *)
Definition sample_open {A : Type} (path : string) (a : A) : result A :=
  if String.eqb path "/deck/broken.png" || String.eqb path "/deck/slide3.png"
  then Raise (Exception "cannot identify image file")
  else Ok a.

Definition sample_match (img tpl : string) : result Q :=
  if String.eqb img "/deck/tall.png"
  then Raise (Exception "matchTemplate: assertion failed")
  else if String.eqb img "/deck/slide1.png" then Ok (93 # 100)
  else if String.eqb img "/deck/slide2.png" then Ok (41 # 100)
  else Ok (50 # 100).

Definition sample_phash (path : string) : N :=
  if String.eqb path "/deck/slide1.png" then 0
  else if String.eqb path "/deck/slide2.png" then 7
  else if String.eqb path "/deck/slide10.png" then 8388607
  else 5.

Definition sample_lib : ImageLib :=
  {| gray_image := string;
     rgb_image := string;
     open_gray := λ path, sample_open path path;
     match_max := sample_match;
     open_phash := λ path, sample_open path (sample_phash path);
     open_rgb := λ path, sample_open path path;
     save_error := λ path _,
       if String.eqb path "/readonly/out.pdf"
       then Some (Exception "permission denied") else None |}.

Definition sample_watermark (files : list string) (invert : bool) : watermark_params :=
  {| wm_folder := "/deck";
     watermark_path := "/marks/logo.png";
     wm_threshold := 80 # 100;
     file_list := files;
     invert_logic := invert |}.

(** The distance between the hashes of two files of a folder, when
    both can be hashed. *)
Definition hash_distance `{OsPath} `{ImageLib} (folder a b : string) : option nat :=
  match open_phash (join folder a), open_phash (join folder b) with
  | Ok ha, Ok hb => Some (hash_sub ha hb)
  | _, _ => None
  end.

(** Both files can be hashed and their hashes are within the threshold. *)
Definition similar `{OsPath} `{ImageLib} (folder : string) (threshold : Z)
    (a b : string) : Prop :=
  ∃ d, hash_distance folder a b = Some d ∧ (Z.of_nat d ≤ threshold)%Z.

(** Every cached hash is the hash of the file it is stored under. *)
Definition cache_sound `{OsPath} `{ImageLib} (folder : string)
    (cache : gmap string N) : Prop :=
  ∀ f h, cache !! f = Some h → open_phash (join folder f) = Ok h.

(** [a] stands right before [b] in [l]. *)
Definition adjacent (l : list string) (a b : string) : Prop :=
  ∃ i, l !! i = Some a ∧ l !! S i = Some b.

Definition sample_animation (files : list string) : animation_params :=
  {| an_folder := "/deck"; an_threshold := 10; selected_files := files |}.

(** The pages obtained from the files that open, in the order of the
    names. *)
Definition decoded `{OsPath} `{ImageLib} (folder : string) (names : list string)
    : list rgb_image :=
  omap (λ f, match open_rgb (join folder f) with
             | Ok img => Some img
             | Raise _ => None
             end) names.

Definition sample_pdf (files : list string) (out : string) : pdf_params :=
  {| pdf_folder := "/deck"; final_list := files; output_path := out |}.

(** * More of the program *)

(** ** Notions used in further statements about the window *)

(** The actions that are not "forced": applying a detection result, the
    buttons "select visible" and "deselect all", and the calls
    [set_filtered(True)] and [set_selected(_, force=False)]. *)
Definition is_soft (a : action) : Prop :=
  match a with
  | ProcessingDone _ _ | SelectVisible | DeselectAll => True
  | WidgetCall _ (SetFiltered true) => True
  | WidgetCall _ (SetSelected _ false) => True
  | _ => False
  end.

(** ** [MainWindow]: reading the thumbnails *)

(** [items] is [self.thumbnail_widgets.items()]: every entry of the
    dict once, in the order of insertion.  The functions below walk the
    dict in that order, so they take the items as an argument. *)
Definition dict_items (win : MainWindow) (items : list (string * ThumbnailWidget)) : Prop :=
  NoDup items.*1 ∧ list_to_map items = thumbnail_widgets win.

#[global] Instance ThumbnailWidget_eq_dec : EqDecision ThumbnailWidget.
Proof. solve_decision. Defined.

#[global] Instance dict_items_dec (win : MainWindow)
    (items : list (string * ThumbnailWidget)) : Decision (dict_items win items).
Proof. unfold dict_items. apply _. Defined.

(** What [get_selected_files] looks at: the filtered flag when asked for
    the filtered files, the selected flag otherwise. *)
Definition wanted (filtered : bool) (w : ThumbnailWidget) : bool :=
  if filtered then is_filtered w else is_selected w.

(** The items of the sample window, in the order of loading. *)
Definition sample_items : list (string * ThumbnailWidget) :=
  [("slide1.png", {| file_path := "/deck/slide1.png"; file_name := "slide1.png";
                     is_selected := false; is_filtered := true |});
   ("slide2.png", {| file_path := "/deck/slide2.png"; file_name := "slide2.png";
                     is_selected := false; is_filtered := false |});
   ("slide10.png", {| file_path := "/deck/slide10.png"; file_name := "slide10.png";
                      is_selected := false; is_filtered := false |})].

(** One turn of the loop of [update_stats]. *)
Definition count_widget (acc : nat * nat) (w : ThumbnailWidget) : nat * nat :=
  let '(selected, filtered) := acc in
  (if is_selected w then S selected else selected,
   if is_filtered w then S filtered else filtered).

(** [update_stats]: the numbers written on the three labels, total,
    selected and filtered. *)
Definition update_stats (items : list (string * ThumbnailWidget)) : nat * nat * nat :=
  let '(selected, filtered) := foldl count_widget (0, 0) items.*2 in
  (length items, selected, filtered).

(** One turn of the loop of [get_selected_files]. *)
Definition collect_file (filtered : bool) (files : list string)
    (item : string * ThumbnailWidget) : list string :=
  let '(file_name, widget) := item in
  if filtered && is_filtered widget then files ++ [file_name]
  else if negb filtered && is_selected widget then files ++ [file_name]
  else files.

Definition get_selected_files (items : list (string * ThumbnailWidget))
    (filtered : bool) : list string :=
  sort_natural (foldl (collect_file filtered) [] items).

(** [update_grid_layout]: the number of columns for a viewport width. *)
Definition grid_cols (viewport_width : Z) : Z :=
  Z.max 1 ((viewport_width - 10) / (160 + 10))%Z.

Record grid_walk : Type := {
  placed : list (string * (Z * Z));
  grid_row : Z;
  grid_col : Z
}.

(** One turn of the loop: the widget goes to [(row, col)], then the
    position moves on. *)
Definition place_widget (cols : Z) (st : grid_walk) (file_name : string) : grid_walk :=
  let col := (grid_col st + 1)%Z in
  {| placed := placed st ++ [(file_name, (grid_row st, grid_col st))];
     grid_row := if (cols <=? col)%Z then (grid_row st + 1)%Z else grid_row st;
     grid_col := if (cols <=? col)%Z then 0%Z else col |}.

(** The cell given to each thumbnail, in the order of the calls to
    [addWidget]. *)
Definition update_grid_layout (viewport_width : Z)
    (items : list (string * ThumbnailWidget)) : list (string * (Z * Z)) :=
  match items with
  | [] => []
  | _ =>
      placed (foldl (place_widget (grid_cols viewport_width))
                {| placed := []; grid_row := 0; grid_col := 0 |}
                (sort_natural items.*1))
  end.

(** The cell of index [k] when a grid of [cols] columns is filled row
    by row. *)
Definition cell (cols : Z) (k : nat) : Z * Z :=
  (Z.of_nat k / cols, Z.of_nat k mod cols)%Z.

(** ** [MainWindow]: starting the tasks *)

(** Why a button did not start its task (the message box shown). *)
Inductive refusal : Type :=
| NoFolder
| NoWatermarkFile
| NothingToCheck
| TooFewSelected
| NoOutputPath
| NothingSelected.

Inductive launch (A : Type) : Type :=
| Refused (why : refusal)
| Started (params : A).

Arguments Refused {A} why.
Arguments Started {A} params.

Section Launch.
Context `{OsPath}.

(** [wt_path_exists] is [os.path.exists(wt_path)]; the other arguments
    are the values read from the widgets. *)
Definition run_watermark_check (win : MainWindow)
    (items : list (string * ThumbnailWidget))
    (wt_path : string) (wt_path_exists : bool) (slider_wt : Z)
    (cb_wt_global cb_wt_invert : bool) : launch watermark_params :=
  if String.eqb (image_folder win) "" then Refused NoFolder
  else if negb wt_path_exists then Refused NoWatermarkFile
  else
    let start files_to_check :=
      Started {| wm_folder := image_folder win;
                 watermark_path := wt_path;
                 wm_threshold := slider_wt # 100;
                 file_list := files_to_check;
                 invert_logic := cb_wt_invert |} in
    if cb_wt_global then start (all_files_paths win)
    else
      let selected_basenames := get_selected_files items false in
      let files_to_check := map (join (image_folder win)) selected_basenames in
      match files_to_check with
      | [] => Refused NothingToCheck
      | _ => start files_to_check
      end.

Definition run_animation_check (win : MainWindow)
    (items : list (string * ThumbnailWidget)) (slider_at : Z)
    : launch animation_params :=
  if String.eqb (image_folder win) "" then Refused NoFolder
  else
    let selected := get_selected_files items false in
    if (length selected <? 2)%nat then Refused TooFewSelected
    else Started {| an_folder := image_folder win;
                    an_threshold := slider_at;
                    selected_files := selected |}.

(** [output_path] is the text of the output line, which starts out as
    the label for "not set". *)
Definition run_create_pdf (win : MainWindow)
    (items : list (string * ThumbnailWidget))
    (output_path : string) : launch pdf_params :=
  if String.eqb (image_folder win) "" then Refused NoFolder
  else if String.eqb output_path "未设置" then Refused NoOutputPath
  else
    match get_selected_files items false with
    | [] => Refused NothingSelected
    | final_list =>
        Started {| pdf_folder := image_folder win;
                   final_list := final_list;
                   output_path := output_path |}
    end.

End Launch.

(** ** Requests that differ in one field *)

Definition with_threshold (t : Q) (p : watermark_params) : watermark_params :=
  {| wm_folder := wm_folder p;
     watermark_path := watermark_path p;
     wm_threshold := t;
     file_list := file_list p;
     invert_logic := invert_logic p |}.

Definition with_file_list (files : list string) (p : watermark_params)
    : watermark_params :=
  {| wm_folder := wm_folder p;
     watermark_path := watermark_path p;
     wm_threshold := wm_threshold p;
     file_list := files;
     invert_logic := invert_logic p |}.

Definition with_an_threshold (d : Z) (p : animation_params) : animation_params :=
  {| an_folder := an_folder p;
     an_threshold := d;
     selected_files := selected_files p |}.

Definition with_selected_files (files : list string) (p : animation_params)
    : animation_params :=
  {| an_folder := an_folder p;
     an_threshold := an_threshold p;
     selected_files := files |}.

(** The excluded set at the end of [animation_check_task], before it is
    turned into a list. *)
Definition dedup_set_of `{OsPath} `{ImageLib} (p : animation_params) : gset string :=
  match sort_natural (selected_files p) with
  | first :: (_ :: _) as rest =>
      match open_phash (join (an_folder p) first) with
      | Raise _ => ∅
      | Ok h =>
          an_excluded
            (compare_loop (an_folder p) (an_threshold p) first rest
               {| hash_cache := {[first := h]}; an_excluded := ∅; an_sent := [] |})
      end
  | _ => ∅
  end.

(** A window on the folder [/deck] right after its three slides were
    loaded, and its items in the order of loading. *)
Definition deck_window : MainWindow :=
  @on_files_loaded posix_path
    ["/deck/slide1.png"; "/deck/slide2.png"; "/deck/slide10.png"]
    {| image_folder := "/deck"; thumbnail_widgets := ∅; all_files_paths := [] |}.

Definition deck_items : list (string * ThumbnailWidget) :=
  map (λ path, (posix_basename path, @new_thumbnail posix_path path))
    ["/deck/slide1.png"; "/deck/slide2.png"; "/deck/slide10.png"].

(** ** Task 1: loading a folder *)

(** [os.listdir(folder)]: the entries, [FileNotFoundError], or another
    exception. *)
Inductive listing : Type :=
| Listed (entries : list string)
| NotFound
| ListFailed (e : exn).

(** The folder and Qt's image reader: [QImage_load p] is [QImage(p)],
    [None] when the image [isNull()]. *)
Class FolderLib : Type := {
  listdir : string → listing;
  qimage : Type;
  QImage_load : string → option qimage
}.

Inductive load_message : Type :=
| MsgLoading (folder : string)
| MsgFolderNotFound (folder : string)
| MsgSkipImage (file_name : string)
| MsgLoadingDone (count : nat).

(** [str.endswith]: some tail of [s] is [suffix]. *)
Fixpoint endswith (s suffix : string) : bool :=
  String.eqb s suffix ||
  match s with
  | EmptyString => false
  | String _ s' => endswith s' suffix
  end.

(** [f.lower().endswith(('.png', '.jpg', '.jpeg'))]. *)
Definition is_image (f : string) : bool :=
  let l := lower f in
  endswith l ".png" || endswith l ".jpg" || endswith l ".jpeg".

Section Loading.
Context `{OsPath} `{FolderLib} `{PyText}.

(** The signals of the loading task. *)
Inductive load_signal : Type :=
| load_log (m : load_message)
| files_loaded (file_paths : list string)
| thumbnail_loaded (file_path : string) (img : qimage)
| loading_finished.

(** What one file adds: its thumbnail, or a warning when the image is
    null. *)
Definition load_thumbnail (folder file_name : string) : load_signal :=
  let file_path := join folder file_name in
  match QImage_load file_path with
  | Some img => thumbnail_loaded file_path img
  | None => load_log (MsgSkipImage file_name)
  end.

(** The loop over the files; [isRunning k] is the answer of
    [self.isRunning()] in turn [k], and the loop stops at the first
    [False]. *)
Fixpoint load_thumbnails (isRunning : nat → bool) (k : nat)
    (folder : string) (all_files : list string) : list load_signal :=
  match all_files with
  | [] => []
  | file_name :: rest =>
      if negb (isRunning k) then []
      else load_thumbnail folder file_name
             :: load_thumbnails isRunning (S k) folder rest
  end.

(** [all_files.sort(key=natural_sort_key)] (line 199).  The keys are
    computed first, one call of [natural_sort_key] per name in list
    order, and the first exception leaves the sort. *)
Fixpoint sort_keys (l : list string) : result (list (list pyval * string)) :=
  match l with
  | [] => Ok []
  | f :: rest =>
      match natural_sort_key_of f with
      | Raise e => Raise e
      | Ok k =>
          match sort_keys rest with
          | Raise e => Raise e
          | Ok keyed => Ok ((k, f) :: keyed)
          end
      end
  end.

(** Then the names are put in the order of their keys by [<], names
    with equal keys staying in the order they had. *)
Definition keyed_ltb (a b : list pyval * string) : bool :=
  match pylist_lt a.1 b.1 with
  | Some r => r
  | None => false
  end.

Fixpoint insert_keyed (x : list pyval * string) (l : list (list pyval * string))
    : list (list pyval * string) :=
  match l with
  | [] => [x]
  | y :: l' =>
      if keyed_ltb y x then y :: insert_keyed x l' else x :: l
  end.

(** [a] does not sort after [b]: comparing their keys returns, and says
    that the key of [b] is not the smaller one. *)
Definition keyed_le (a b : list pyval * string) : Prop :=
  pylist_lt b.1 a.1 = Some false.

Definition sort_by_key (l : list string) : result (list string) :=
  match sort_keys l with
  | Raise e => Raise e
  | Ok keyed => Ok (fold_right insert_keyed [] keyed).*2
  end.

(** The signals sent, and the exception that leaves the task.  The
    listing, the filter and the sort are inside one [try] whose only
    handler is [except FileNotFoundError]: any other exception of
    [os.listdir], and the [ValueError] of the sort, leave the task after
    the first log line, before [files_loaded]. *)
Definition load_files_task (isRunning : nat → bool) (folder : string)
    : list load_signal * option exn :=
  match listdir folder with
  | NotFound =>
      ([load_log (MsgLoading folder); load_log (MsgFolderNotFound folder)], None)
  | ListFailed e => ([load_log (MsgLoading folder)], Some e)
  | Listed entries =>
      match sort_by_key (List.filter is_image entries) with
      | Raise e => ([load_log (MsgLoading folder)], Some e)
      | Ok all_files =>
          (load_log (MsgLoading folder)
             :: files_loaded (map (join folder) all_files)
             :: load_thumbnails isRunning 0 folder all_files
             ++ [load_log (MsgLoadingDone (length all_files)); loading_finished],
           None)
      end
  end.

End Loading.

(** Folders for the examples; one holds a scan whose name starts with a
    circled digit. *)
Definition sample_folder : FolderLib :=
  {| listdir := λ folder,
       if String.eqb folder "/deck"
       then Listed ["slide10.PNG"; "notes.txt"; "slide2.png"; "cover.jpeg"; "slide1.png"]
       else if String.eqb folder "/scans"
       then Listed ["page2.png"; "②1.png"; "page1.png"]
       else NotFound;
     qimage := string;
     QImage_load := λ path,
       if String.eqb path "/deck/cover.jpeg" then None else Some path |}.

(** What line 28 does on the one name of the examples that is not
    plain: [re.split] cuts [②1.png] into [②], [1] and [.png], and [int]
    raises on the first piece, which passes [str.isdigit].  No other
    name is asked for; the answer for it is a key of one piece. *)
Definition sample_key (s : string) : result (list pyval) :=
  if String.eqb s "②1.png"
  then Raise (Exception "ValueError: invalid literal for int() with base 10")
  else Ok [PyStr s].

Definition sample_text : PyText.
Proof.
  refine {| key_otherwise := sample_key |}.
  intros s k. unfold sample_key.
  destruct (String.eqb s "②1.png"); intros Hk; [discriminate|].
  injection Hk as <-. constructor.
Defined.
(** * Proofs *)

(** ** The pieces [re.split] returns *)

Module SplitFacts.

Lemma re_split_alternating (s : string) : alternating (re_split_digits s).
Proof.
  induction s as [|c s IH]; simpl.
  - by constructor.
  - destruct (is_digit c) eqn:Hc.
    + inversion IH as [t Ht Heq | t d rest Ht Hd Hrest Hin Heq].
      * destruct t as [|c' t].
        -- apply alt_run; simpl; rewrite ?Hc; try done. by constructor.
        -- apply alt_run; simpl; rewrite ?Hc; try done. by constructor.
      * destruct t as [|c' t].
        -- apply alt_run; try done.
           destruct d; simpl in *; [done|]. by rewrite Hc.
        -- apply alt_run; simpl; rewrite ?Hc; try done.
           by apply alt_run.
    + inversion IH as [t Ht Heq | t d rest Ht Hd Hrest Hin Heq].
      * constructor. simpl. by rewrite Hc.
      * apply alt_run; try done. simpl. by rewrite Hc.
Qed.


Lemma no_digits_not_isdigit (t : string) : no_digits t = true → isdigit t = false.
Proof.
  destruct t as [|c t]; simpl; [done|].
  destruct (is_digit c); simpl; [discriminate|done].
Qed.


End SplitFacts.

(** ** The model on small inputs *)

Example split_img10 : re_split_digits "img10" = ["img"; "10"; ""].
Proof. reflexivity. Qed.

Example split_mixed : re_split_digits "7a08b" = [""; "7"; "a"; "08"; "b"].
Proof. reflexivity. Qed.

Example split_no_digit : re_split_digits "cover" = ["cover"].
Proof. reflexivity. Qed.

Example split_empty : re_split_digits "" = [""].
Proof. reflexivity. Qed.

Example key_img10 :
  natural_sort_key "IMG10.png" = [PyStr "img"; PyInt 10; PyStr ".png"].
Proof. reflexivity. Qed.

Example key_leading_zero : natural_sort_key "img010" = natural_sort_key "img10".
Proof. reflexivity. Qed.

(** The sort is stable: names with the same key keep their order. *)
Example sort_stable :
  sort_natural ["b2"; "B1"; "a10"; "b1"; "A10"] = ["a10"; "A10"; "B1"; "b1"; "b2"].
Proof. reflexivity. Qed.

Example hash_sub_bits : hash_sub 5 6 = 2.
Proof. reflexivity. Qed.

Example basename_of_path : posix_basename "/deck/slide1.png" = "slide1.png".
Proof. reflexivity. Qed.

(** ** Comparisons *)

Module CompareFacts.

Lemma ascii_compare_refl (a : ascii) : Ascii.compare a a = Eq.
Proof. apply N.compare_refl. Qed.


Lemma string_compare_refl (s : string) : String.compare s s = Eq.
Proof.
  induction s as [|c s IH]; simpl; [done|].
  by rewrite ascii_compare_refl.
Qed.

Lemma string_compare_eq (s t : string) : String.compare s t = Eq ↔ s = t.
Proof.
  split; [apply String.compare_eq_iff|].
  intros ->. apply string_compare_refl.
Qed.


Lemma pyval_compare_eq (a b : pyval) : pyval_compare a b = Eq ↔ a = b.
Proof.
  destruct a as [m|s], b as [n|t]; simpl; try (split; congruence).
  - rewrite Z.compare_eq_iff. split; congruence.
  - rewrite string_compare_eq. split; congruence.
Qed.

Lemma pyval_compare_antisym (a b : pyval) :
  pyval_compare a b = CompOpp (pyval_compare b a).
Proof.
  destruct a as [m|s], b as [n|t]; simpl; try done.
  - apply Z.compare_antisym.
  - apply String.compare_antisym.
Qed.


Lemma pyval_eqb_eq (a b : pyval) : pyval_eqb a b = true ↔ a = b.
Proof.
  destruct a as [m|s], b as [n|t]; simpl; try (split; congruence).
  - rewrite Z.eqb_eq. split; congruence.
  - rewrite String.eqb_eq. split; congruence.
Qed.

Lemma pylist_compare_refl (a : list pyval) : pylist_compare a a = Eq.
Proof.
  induction a as [|x a IH]; simpl; [done|].
  by rewrite (proj2 (pyval_compare_eq x x) eq_refl).
Qed.


Lemma pylist_compare_antisym (a b : list pyval) :
  pylist_compare a b = CompOpp (pylist_compare b a).
Proof.
  revert b. induction a as [|x a IH]; intros [|y b]; simpl; try done.
  rewrite (pyval_compare_antisym x y).
  destruct (pyval_compare y x); simpl; auto.
Qed.


(** Wherever Python's [<] on lists returns, it returns what the
    three-way comparison says. *)
Lemma pylist_lt_compare (a b : list pyval) (r : bool) :
  pylist_lt a b = Some r → r = is_lt (pylist_compare a b).
Proof.
  revert b. induction a as [|x a IH]; intros [|y b]; simpl; try congruence.
  destruct (pyval_eqb x y) eqn:Hxy.
  - apply pyval_eqb_eq in Hxy. subst.
    rewrite (proj2 (pyval_compare_eq y y) eq_refl). apply IH.
  - assert (pyval_compare x y ≠ Eq) as Hne.
    { rewrite pyval_compare_eq. intros ->.
      by rewrite (proj2 (pyval_eqb_eq y y) eq_refl) in Hxy. }
    destruct x as [m|s], y as [n|t]; simpl in *; try done.
    + intros [= <-]. unfold Z.ltb. by destruct (m ?= n)%Z.
    + intros [= <-]. unfold String.ltb. by destruct (String.compare s t).
Qed.

Lemma key_shape_lt_defined (a b : list pyval) :
  key_shape a → key_shape b → is_Some (pylist_lt a b).
Proof.
  intros Ha. revert b.
  induction Ha as [t|t n rest Hrest IH]; intros b Hb;
    destruct Hb as [t'|t' n' rest' Hrest']; simpl.
  - destruct (String.eqb t t'); eauto.
  - destruct (String.eqb t t'); eauto.
  - destruct (String.eqb t t'); eauto.
  - destruct (String.eqb t t'); eauto.
    destruct (Z.eqb n n'); eauto.
Qed.

End CompareFacts.

(** ** The natural order *)

Module OrderFacts.
Import SplitFacts CompareFacts.

Lemma key_of_text (t : string) : no_digits t = true → key_of_piece t = PyStr (lower t).
Proof. intros Ht. unfold key_of_piece. by rewrite no_digits_not_isdigit. Qed.

Lemma key_of_digits (d : string) : isdigit d = true → key_of_piece d = PyInt (int d).
Proof. intros Hd. unfold key_of_piece. by rewrite Hd. Qed.

Lemma alternating_key_shape (l : list string) :
  alternating l → key_shape (map key_of_piece l).
Proof.
  induction 1 as [t Ht|t d rest Ht Hd Hrest IH Hin]; simpl.
  - rewrite key_of_text by done. constructor.
  - rewrite key_of_text, key_of_digits by done. by constructor.
Qed.

Lemma natural_sort_key_shape (s : string) : key_shape (natural_sort_key s).
Proof. apply alternating_key_shape, re_split_alternating. Qed.

(** Comparing two keys never raises [TypeError]. *)
Lemma key_lt_defined (s t : string) : key_lt s t = Some (natural_ltb s t).
Proof.
  unfold natural_ltb.
  destruct (key_shape_lt_defined _ _ (natural_sort_key_shape s) (natural_sort_key_shape t))
    as [r Hr].
  unfold key_lt. by rewrite Hr.
Qed.

Lemma natural_ltb_compare (s t : string) :
  natural_ltb s t = is_lt (pylist_compare (natural_sort_key s) (natural_sort_key t)).
Proof. apply pylist_lt_compare, key_lt_defined. Qed.

Lemma natural_le_compare (s t : string) :
  natural_le s t ↔ pylist_compare (natural_sort_key s) (natural_sort_key t) ≠ Gt.
Proof.
  unfold natural_le. rewrite natural_ltb_compare, pylist_compare_antisym.
  destruct (pylist_compare (natural_sort_key s) (natural_sort_key t)); simpl;
    split; congruence.
Qed.


Lemma natural_le_total (s t : string) : natural_le s t ∨ natural_le t s.
Proof.
  rewrite !natural_le_compare.
  rewrite (pylist_compare_antisym (natural_sort_key t)).
  destruct (pylist_compare (natural_sort_key s) (natural_sort_key t)); simpl;
    auto.
Qed.




End OrderFacts.

(** ** Sorting by the natural key *)

Module SortFacts.
Import OrderFacts.

Lemma insert_natural_perm (x : string) (l : list string) :
  Permutation (insert_natural x l) (x :: l).
Proof.
  induction l as [|y l IH]; simpl; [done|].
  destruct (natural_ltb y x); [|done].
  rewrite IH. apply perm_swap.
Qed.

Lemma sort_natural_perm (l : list string) : Permutation (sort_natural l) l.
Proof.
  induction l as [|x l IH]; simpl; [done|].
  rewrite insert_natural_perm. by constructor.
Qed.

Lemma insert_natural_hd (x y : string) (l : list string) :
  natural_le y x → HdRel natural_le y l → HdRel natural_le y (insert_natural x l).
Proof.
  intros Hyx Hl. destruct l as [|z l]; simpl; [by constructor|].
  destruct (natural_ltb z x); constructor; [|done].
  by inversion Hl.
Qed.

Lemma insert_natural_sorted (x : string) (l : list string) :
  Sorted natural_le l → Sorted natural_le (insert_natural x l).
Proof.
  induction 1 as [|y l Hl IH Hhd]; simpl; [by repeat constructor|].
  destruct (natural_ltb y x) eqn:Hyx.
  - constructor; [done|]. apply insert_natural_hd; [|done].
    destruct (natural_le_total y x) as [Hle|Hle]; [done|].
    unfold natural_le in Hle. congruence.
  - constructor; [by constructor|]. by constructor.
Qed.

Lemma sort_natural_sorted (l : list string) : Sorted natural_le (sort_natural l).
Proof.
  induction l as [|x l IH]; simpl; [constructor|].
  by apply insert_natural_sorted.
Qed.

(** The sort leaves a list alone that is in order already. *)
Lemma sort_natural_id (l : list string) :
  Sorted natural_le l → sort_natural l = l.
Proof.
  induction 1 as [|x l Hl IH Hhd]; simpl; [done|].
  fold (sort_natural l). rewrite IH.
  destruct Hhd as [|y l' Hxy]; simpl; [done|].
  unfold natural_le in Hxy. by rewrite Hxy.
Qed.

(** Names with one and the same key come out in the order they went in. *)
Lemma insert_natural_stable (k : list pyval) (x : string) (l : list string) :
  filter (λ s, natural_sort_key s = k) (insert_natural x l)
  = filter (λ s, natural_sort_key s = k) (x :: l).
Proof.
  induction l as [|y l IH]; simpl; [done|].
  destruct (natural_ltb y x) eqn:Hyx; [|done].
  rewrite (filter_cons _ y), IH, !filter_cons.
  destruct (decide (natural_sort_key y = k)) as [Hy|Hy]; [|done].
  destruct (decide (natural_sort_key x = k)) as [Hx|Hx]; [|done].
  rewrite natural_ltb_compare, Hy, Hx, CompareFacts.pylist_compare_refl in Hyx.
  done.
Qed.

Lemma sort_natural_stable (k : list pyval) (l : list string) :
  filter (λ s, natural_sort_key s = k) (sort_natural l)
  = filter (λ s, natural_sort_key s = k) l.
Proof.
  induction l as [|x l IH]; simpl; [done|].
  fold (sort_natural l). rewrite insert_natural_stable, !filter_cons, IH. done.
Qed.

Lemma sort_natural_length (l : list string) : length (sort_natural l) = length l.
Proof. apply Permutation_length, sort_natural_perm. Qed.

End SortFacts.

(** ** C9: the natural ordering *)




(** ** The selection state *)

Module WidgetFacts.

Lemma set_filtered_ok (b : bool) (w : ThumbnailWidget) : widget_ok (set_filtered b w).
Proof. unfold widget_ok. destruct b; simpl; done. Qed.

Lemma set_selected_ok (b force : bool) (w : ThumbnailWidget) :
  widget_ok w → widget_ok (set_selected b force w).
Proof.
  unfold widget_ok, set_selected. intros Hw.
  destruct force, b; simpl; try done.
  destruct (is_filtered w) eqn:Hf; simpl; [auto|done].
Qed.

Lemma mousePressEvent_ok (w : ThumbnailWidget) : widget_ok (mousePressEvent w).
Proof.
  unfold widget_ok, mousePressEvent, set_selected. simpl.
  by destruct (is_selected w).
Qed.

Lemma call_widget_ok (c : widget_call) (w : ThumbnailWidget) :
  widget_ok w → widget_ok (call_widget c w).
Proof.
  destruct c; simpl; intros Hw.
  - apply set_filtered_ok.
  - by apply set_selected_ok.
  - apply mousePressEvent_ok.
Qed.

Lemma new_thumbnail_ok `{OsPath} (path : string) : widget_ok (new_thumbnail path).
Proof. unfold widget_ok. simpl. done. Qed.

(** The soft selection of one thumbnail. *)
Lemma set_selected_soft (w : ThumbnailWidget) :
  is_filtered (set_selected true false w) = is_filtered w ∧
  (is_filtered w = false → is_selected (set_selected true false w) = true) ∧
  (is_filtered w = true → set_selected true false w = w).
Proof.
  unfold set_selected. destruct (is_filtered w) eqn:Hf; simpl; by rewrite ?Hf.
Qed.

End WidgetFacts.

Section WindowFacts.
Context `{OsPath}.
Import WidgetFacts.

Lemma window_ok_lookup (win : MainWindow) :
  window_ok win ↔
  ∀ name w, thumbnail_widgets win !! name = Some w → widget_ok w.
Proof. unfold window_ok. by rewrite map_Forall_lookup. Qed.

Lemma for_all_widgets_lookup (f : ThumbnailWidget → ThumbnailWidget)
    (win : MainWindow) (name : string) :
  thumbnail_widgets (for_all_widgets f win) !! name
  = f <$> thumbnail_widgets win !! name.
Proof.
  unfold for_all_widgets. case_bool_decide as Hempty; simpl.
  - rewrite Hempty. by rewrite lookup_empty.
  - by rewrite lookup_fmap.
Qed.

Lemma for_all_widgets_ok (f : ThumbnailWidget → ThumbnailWidget) (win : MainWindow) :
  (∀ w, widget_ok w → widget_ok (f w)) → window_ok win →
  window_ok (for_all_widgets f win).
Proof.
  rewrite !window_ok_lookup. intros Hf Hwin name w.
  rewrite for_all_widgets_lookup.
  destruct (thumbnail_widgets win !! name) as [w0|] eqn:Hw0; simpl; [|done].
  intros [= <-]. eauto.
Qed.

Lemma on_processing_done_lookup (task : string) (l : list string)
    (win : MainWindow) (name : string) :
  thumbnail_widgets (on_processing_done task l win) !! name
  = (λ w, if bool_decide (name ∈ l) then set_filtered true w else w)
      <$> thumbnail_widgets win !! name.
Proof.
  unfold on_processing_done, with_widgets. simpl.
  rewrite map_lookup_imap.
  destruct (thumbnail_widgets win !! name) as [w|]; simpl; [|done].
  f_equal. rewrite (bool_decide_ext (name ∈ (list_to_set l : gset string)) (name ∈ l));
    [done|]. apply elem_of_list_to_set.
Qed.

Lemma on_processing_done_ok (task : string) (l : list string) (win : MainWindow) :
  window_ok win → window_ok (on_processing_done task l win).
Proof.
  rewrite !window_ok_lookup. intros Hwin name w.
  rewrite on_processing_done_lookup.
  destruct (thumbnail_widgets win !! name) as [w0|] eqn:Hw0; simpl; [|done].
  intros [= <-]. case_bool_decide; [apply set_filtered_ok|eauto].
Qed.

Lemma on_widget_ok (name : string) (c : widget_call) (win : MainWindow) :
  window_ok win → window_ok (on_widget name c win).
Proof.
  rewrite !window_ok_lookup. intros Hwin k w. unfold on_widget. simpl.
  rewrite lookup_alter. case_decide as Hk; [|by eauto].
  subst k. destruct (thumbnail_widgets win !! name) as [w0|] eqn:Hw0; simpl; [|done].
  intros [= <-]. apply call_widget_ok. eauto.
Qed.

Lemma loaded_widgets_ok (file_paths : list string) (m : gmap string ThumbnailWidget) :
  map_Forall (λ _ w, widget_ok w) m →
  map_Forall (λ _ w, widget_ok w)
    (foldl (λ m p, <[basename p := new_thumbnail p]> m) m file_paths).
Proof.
  revert m. induction file_paths as [|p ps IH]; intros m Hm; simpl; [done|].
  apply IH, map_Forall_insert_2; [apply new_thumbnail_ok|done].
Qed.

Lemma on_files_loaded_ok (file_paths : list string) (win : MainWindow) :
  window_ok (on_files_loaded file_paths win).
Proof. apply loaded_widgets_ok, map_Forall_empty. Qed.

Lemma step_ok (win : MainWindow) (a : action) : window_ok win → window_ok (step win a).
Proof.
  destruct a; simpl; intros Hwin.
  - apply on_files_loaded_ok.
  - by apply on_widget_ok.
  - by apply on_processing_done_ok.
  - apply for_all_widgets_ok; [|done]. intros w. apply set_selected_ok.
  - apply for_all_widgets_ok; [|done]. intros w. apply set_selected_ok.
  - apply for_all_widgets_ok; [|done]. intros w. apply set_selected_ok.
Qed.

Lemma history_ok (acts : list action) (win : MainWindow) :
  window_ok win → Forall window_ok (history acts win).
Proof.
  revert win. induction acts as [|a acts IH]; intros win Hwin; simpl.
  - by repeat constructor.
  - constructor; [done|]. by apply IH, step_ok.
Qed.

Lemma history_last (acts : list action) (win : MainWindow) :
  last (history acts win) = Some (run acts win).
Proof.
  revert win. induction acts as [|a acts IH]; intros win; simpl; [done|].
  specialize (IH (step win a)). unfold run in *. simpl.
  destruct (history acts (step win a)); [done|]. done.
Qed.

Lemma new_window_ok : window_ok new_window.
Proof. apply map_Forall_empty. Qed.

End WindowFacts.

(** ** C1: the selection invariant *)

(** C1: along every sequence of window actions (loading, a call on one
    thumbnail such as a click or [set_filtered], applying a detection
    result, reset, select-visible, deselect-all) every thumbnail keeps
    [filtered → not selected], from any window that satisfies it and so
    from the empty window the program starts with; [set_filtered(True)]
    always leaves the thumbnail unselected, and a forced
    [set_selected(True)] always clears the filter. *)
Theorem selection_invariant `{OsPath} :
  (∀ win acts, window_ok win →
     Forall window_ok (history acts win) ∧ window_ok (run acts win)) ∧
  (∀ acts, Forall window_ok (history acts new_window)) ∧
  (∀ c w, widget_ok w → widget_ok (call_widget c w)) ∧
  (∀ w, is_filtered (set_filtered true w) = true ∧
        is_selected (set_filtered true w) = false) ∧
  (∀ w, is_selected (set_selected true true w) = true ∧
        is_filtered (set_selected true true w) = false).
Proof.
  split_and!.
  - intros win acts Hwin. pose proof (history_ok acts win Hwin) as Hall.
    split; [done|].
    eapply List.Forall_forall; [exact Hall|].
    apply (proj1 (list_elem_of_In _ _)), last_Some_elem_of, history_last.
  - intros acts. apply history_ok, new_window_ok.
  - apply WidgetFacts.call_widget_ok.
  - done.
  - done.
Qed.

Lemma selection_invariant_witness :
  window_ok sample_window ∧
  window_ok (@run posix_path
               [SelectVisible; WidgetCall "slide1.png" MousePress;
                WidgetCall "slide2.png" (SetFiltered true)]
               sample_window).
Proof.
  assert (window_ok sample_window) as Hok.
  { apply (bool_decide_eq_true_1 (window_ok sample_window)). vm_compute. reflexivity. }
  split; [exact Hok|].
  apply (proj1 (@selection_invariant posix_path)). exact Hok.
Defined.

(** ** C5: select-visible is soft *)

(** C5: [select_visible_thumbnails] creates and removes no thumbnail; a
    thumbnail that is not filtered ends up selected, the filtered flag
    of every thumbnail is what it was, and a filtered thumbnail is left
    exactly as it was, so it does not become selected. *)
Theorem select_visible_is_soft (win : MainWindow) (name : string) (w : ThumbnailWidget) :
  thumbnail_widgets win !! name = Some w →
  dom (thumbnail_widgets (select_visible_thumbnails win)) = dom (thumbnail_widgets win) ∧
  ∃ w', thumbnail_widgets (select_visible_thumbnails win) !! name = Some w' ∧
        is_filtered w' = is_filtered w ∧
        (is_filtered w = false → is_selected w' = true) ∧
        (is_filtered w = true → w' = w) ∧
        (is_filtered w = true → widget_ok w → is_selected w' = false).
Proof.
  intros Hw. split.
  - apply set_eq. intros k. rewrite !elem_of_dom.
    unfold select_visible_thumbnails. rewrite for_all_widgets_lookup.
    by rewrite fmap_is_Some.
  - exists (set_selected true false w).
    unfold select_visible_thumbnails. rewrite for_all_widgets_lookup, Hw.
    destruct (WidgetFacts.set_selected_soft w) as (Hf & Hsel & Hsame).
    split_and!; [done|done|done|done|].
    intros Hfil Hok. rewrite Hsame by done. by apply Hok.
Qed.

Lemma select_visible_is_soft_witness :
  ∃ w, thumbnail_widgets sample_window !! "slide1.png" = Some w ∧
       is_filtered w = true ∧
       thumbnail_widgets (select_visible_thumbnails sample_window) !! "slide1.png" = Some w.
Proof.
  exists {| file_path := "/deck/slide1.png"; file_name := "slide1.png";
            is_selected := false; is_filtered := true |}.
  assert (thumbnail_widgets sample_window !! "slide1.png"
          = Some {| file_path := "/deck/slide1.png"; file_name := "slide1.png";
                    is_selected := false; is_filtered := true |}) as Hw
    by (vm_compute; reflexivity).
  split; [exact Hw|]. split; [reflexivity|].
  destruct (select_visible_is_soft sample_window "slide1.png" _ Hw)
    as (_ & w' & Hw' & _ & _ & Hsame & _).
  rewrite Hw'. f_equal. apply Hsame. reflexivity.
Defined.

(** ** The watermark task *)

Section WatermarkFacts.
Context `{OsPath} `{ImageLib}.

Lemma watermark_step_excluded (template : gray_image) (threshold : Q) (invert : bool)
    (X : gset string) (L : list signal) (path : string) :
  (watermark_step template threshold invert (X, L) path).1
  = if step_excludes template threshold invert path
    then {[basename path]} ∪ X else X.
Proof.
  unfold watermark_step, step_excludes.
  destruct (match_score template path) as [v|e]; [|done].
  destruct invert, (Qle_bool threshold v); done.
Qed.

Lemma watermark_step_log (template : gray_image) (threshold : Q) (invert : bool)
    (X : gset string) (L : list signal) (path : string) :
  ∃ m, (watermark_step template threshold invert (X, L) path).2 = L ++ [log_message m].
Proof.
  unfold watermark_step.
  destruct (match_score template path) as [v|e]; [|by eexists].
  destruct invert, (Qle_bool threshold v); by eexists.
Qed.

Lemma watermark_fold_excluded (template : gray_image) (threshold : Q) (invert : bool)
    (files : list string) (st : gset string * list signal) (name : string) :
  name ∈ (foldl (watermark_step template threshold invert) st files).1 ↔
  name ∈ st.1 ∨
  ∃ path, path ∈ files ∧ basename path = name ∧
          step_excludes template threshold invert path = true.
Proof.
  revert st. induction files as [|f files IH]; intros [X L]; cbn [foldl fst].
  - split; [auto|]. intros [?|(path & Hin & _)]; [done|]. by apply elem_of_nil in Hin.
  - rewrite IH, watermark_step_excluded. split.
    + intros [Hname|(path & Hin & Hbase & Hex)].
      * destruct (step_excludes template threshold invert f) eqn:Hf; [|auto].
        apply elem_of_union in Hname as [Hname|Hname]; [|auto].
        apply elem_of_singleton in Hname. right. exists f.
        split_and!; [apply list_elem_of_here|done|done].
      * right. exists path. split_and!; [by apply list_elem_of_further|done|done].
    + intros [Hname|(path & Hin & Hbase & Hex)].
      * left. destruct (step_excludes template threshold invert f); [|done].
        apply elem_of_union. by right.
      * apply elem_of_cons in Hin as [->|Hin].
        -- left. rewrite Hex. apply elem_of_union. left. by apply elem_of_singleton.
        -- right. eauto.
Qed.

Lemma watermark_fold_log (template : gray_image) (threshold : Q) (invert : bool)
    (files : list string) (st : gset string * list signal) :
  Forall is_log st.2 →
  Forall is_log (foldl (watermark_step template threshold invert) st files).2.
Proof.
  revert st. induction files as [|f files IH]; intros [X L] HL; cbn [foldl snd] in *;
    [done|].
  apply IH. destruct (watermark_step_log template threshold invert X L f) as [m Hm].
  rewrite Hm. apply Forall_app. split; [done|]. by repeat constructor.
Qed.

(** The shape of a run whose template could be read. *)
Lemma watermark_task_run (p : watermark_params) (template : gray_image) :
  open_gray (watermark_path p) = Ok template →
  ∃ sent, Forall is_log sent ∧
    watermark_check_task p
    = sent ++ [processing_done "watermark"
                 (elements (watermark_scan template p).1)].
Proof.
  intros Htpl. unfold watermark_check_task. rewrite Htpl.
  pose proof (watermark_fold_log template (wm_threshold p) (invert_logic p)
                (file_list p) (∅, []) (Forall_nil_2 _)) as Hlog.
  fold (watermark_scan template p) in Hlog.
  destruct (watermark_scan template p) as [X L]. simpl in *.
  eexists (log_message _ :: L ++ [log_message _]). split.
  - constructor; [done|]. apply Forall_app. split; [done|]. by repeat constructor.
  - simpl. by rewrite <- app_assoc.
Qed.

Lemma watermark_scan_excluded (p : watermark_params) (template : gray_image)
    (name : string) :
  name ∈ (watermark_scan template p).1 ↔
  ∃ path, path ∈ file_list p ∧ basename path = name ∧
          step_excludes template (wm_threshold p) (invert_logic p) path = true.
Proof.
  unfold watermark_scan. rewrite watermark_fold_excluded. simpl.
  split; [|auto]. intros [Hempty|Hpath]; [|done].
  by apply not_elem_of_empty in Hempty.
Qed.

Lemma result_of_snoc (sent : list signal) (task : string) (l : list string) :
  result_of (sent ++ [processing_done task l]) = Some l.
Proof. unfold result_of. by rewrite last_snoc. Qed.

Lemma fmap_NoDup_inj {A B : Type} (f : A → B) (l : list A) (x y : A) :
  NoDup (f <$> l) → x ∈ l → y ∈ l → f x = f y → x = y.
Proof.
  induction l as [|a l IH]; simpl; [by intros _ ?%elem_of_nil|].
  rewrite NoDup_cons, !elem_of_cons. intros [Ha Hl] [->|Hx] [->|Hy] Hxy; auto.
  - destruct Ha. rewrite Hxy. by apply list_elem_of_fmap_2.
  - destruct Ha. rewrite <- Hxy. by apply list_elem_of_fmap_2.
Qed.

(** What [step_excludes] says, in terms of the score. *)
Lemma step_excludes_rule (template : gray_image) (threshold : Q) (invert : bool)
    (path : string) :
  step_excludes template threshold invert path = true ↔
    (∃ e, match_score template path = Raise e)
    ∨ (invert = false ∧ ∃ v, match_score template path = Ok v ∧ (v < threshold)%Q)
    ∨ (invert = true ∧ ∃ v, match_score template path = Ok v ∧ (threshold <= v)%Q).
Proof.
  unfold step_excludes. destruct (match_score template path) as [v|e].
  - destruct invert.
    + rewrite Qle_bool_iff. split.
      * intros Hle. right. right. eauto.
      * intros [(e & He)|[(Hinv & _)|(_ & v' & [= <-] & Hle)]]; done.
    + rewrite negb_true_iff. split.
      * intros Hnle. right. left. split; [done|]. exists v. split; [done|].
        apply Qnot_le_lt. intros Hle. apply Qle_bool_iff in Hle. congruence.
      * intros [(e & He)|[(_ & v' & [= <-] & Hlt)|(Hinv & _)]]; try done.
        destruct (Qle_bool threshold v) eqn:Hle; [|done].
        apply Qle_bool_iff in Hle. by apply Qlt_not_le in Hlt.
  - split; [|done]. intros _. left. eauto.
Qed.

(** The same rule over what the two library calls of the loop body
    answer: [Image.open] with [convert] for the candidate, then
    [cv2.matchTemplate]. *)
Lemma step_excludes_calls (template : gray_image) (threshold : Q) (invert : bool)
    (path : string) :
  step_excludes template threshold invert path = true ↔
    (∃ e, open_gray path = Raise e)
    ∨ (∃ main_image e,
         open_gray path = Ok main_image ∧ match_max main_image template = Raise e)
    ∨ (invert = false ∧
       ∃ main_image v, open_gray path = Ok main_image ∧
         match_max main_image template = Ok v ∧ (v < threshold)%Q)
    ∨ (invert = true ∧
       ∃ main_image v, open_gray path = Ok main_image ∧
         match_max main_image template = Ok v ∧ (threshold <= v)%Q).
Proof.
  rewrite step_excludes_rule. unfold match_score.
  destruct (open_gray path) as [main_image|e0].
  - split.
    + intros [(e & He)|[(Hinv & v & Hv & Hlt)|(Hinv & v & Hv & Hle)]].
      * right. left. eauto.
      * right. right. left. eauto 6.
      * right. right. right. eauto 6.
    + intros [(e & He)|[(img & e & [= <-] & He)|
                [(Hinv & img & v & [= <-] & Hv & Hlt)|
                 (Hinv & img & v & [= <-] & Hv & Hle)]]].
      * discriminate.
      * left. eauto.
      * right. left. eauto.
      * right. right. eauto.
  - split; intros _; left; eauto.
Qed.

End WatermarkFacts.

(** ** C3: which candidates the watermark task excludes *)

(** C3: in a run whose template was read, over candidates with distinct
    base names (the window passes the files of one folder), the task
    ends with one [processing_done] after its log lines, and the name of
    a candidate is in the list it carries exactly when PIL could not
    open and convert the candidate, or [cv2.matchTemplate] raised on it,
    or [invert] is off and the score the match returned is below the
    threshold, or [invert] is on and that score is at least the
    threshold.  A candidate that could not be scored is excluded
    whatever [invert] is; the list holds names of candidates only. *)
Theorem watermark_exclusion_rule `{OsPath} `{ImageLib}
    (p : watermark_params) (template : gray_image) :
  open_gray (watermark_path p) = Ok template →
  NoDup (basename <$> file_list p) →
  ∃ sent excluded,
    watermark_check_task p = sent ++ [processing_done "watermark" excluded] ∧
    Forall is_log sent ∧
    (∀ name, name ∈ excluded → name ∈ basename <$> file_list p) ∧
    ∀ path, path ∈ file_list p →
      (basename path ∈ excluded ↔
         (∃ e, open_gray path = Raise e)
         ∨ (∃ main_image e,
              open_gray path = Ok main_image ∧
              match_max main_image template = Raise e)
         ∨ (invert_logic p = false ∧
            ∃ main_image v, open_gray path = Ok main_image ∧
              match_max main_image template = Ok v ∧ (v < wm_threshold p)%Q)
         ∨ (invert_logic p = true ∧
            ∃ main_image v, open_gray path = Ok main_image ∧
              match_max main_image template = Ok v ∧ (wm_threshold p <= v)%Q)).
Proof.
  intros Htpl Hnodup.
  destruct (watermark_task_run p template Htpl) as (sent & Hlog & Htask).
  exists sent, (elements (watermark_scan template p).1).
  split_and!; [done|done| |].
  - intros name. rewrite elem_of_elements, watermark_scan_excluded.
    intros (path & Hin & <- & _). by apply list_elem_of_fmap_2.
  - intros path Hin.
    rewrite elem_of_elements, watermark_scan_excluded, <- step_excludes_calls.
    split.
    + intros (q & Hq & Hbase & Hex).
      by rewrite <- (fmap_NoDup_inj basename (file_list p) q path Hnodup Hq Hin Hbase).
    + intros Hex. eauto.
Qed.

(** With [invert] on: the well-matching slide is excluded, the poorly
    matching one is kept, and the two slides that could not be scored
    (one undecodable, one on which the match raises) are excluded all
    the same. *)
Lemma watermark_exclusion_rule_witness :
  ∃ sent excluded,
    @watermark_check_task posix_path sample_lib
      (sample_watermark
         ["/deck/slide1.png"; "/deck/slide2.png"; "/deck/broken.png";
          "/deck/tall.png"] true)
    = sent ++ [processing_done "watermark" excluded] ∧
    ("slide1.png" ∈ excluded) ∧ ("slide2.png" ∉ excluded) ∧
    ("broken.png" ∈ excluded) ∧ ("tall.png" ∈ excluded).
Proof.
  destruct (@watermark_exclusion_rule posix_path sample_lib
              (sample_watermark
                 ["/deck/slide1.png"; "/deck/slide2.png"; "/deck/broken.png";
                  "/deck/tall.png"] true)
              "/marks/logo.png")
    as (sent & excluded & Htask & _ & _ & Hrule).
  - reflexivity.
  - apply (bool_decide_eq_true_1 (NoDup _)). vm_compute. reflexivity.
  - exists sent, excluded. split; [exact Htask|]. split_and!.
    + apply (Hrule "/deck/slide1.png").
      * apply list_elem_of_here.
      * right. right. right. split; [reflexivity|].
        exists "/deck/slide1.png", (93 # 100). split_and!; try reflexivity.
        vm_compute. discriminate.
    + intros Hin.
      apply (Hrule "/deck/slide2.png") in Hin;
        [|apply list_elem_of_further, list_elem_of_here].
      destruct Hin as [(e & He)|[(img & e & Himg & He)|
                        [(Hinv & _)|(_ & img & v & Himg & Hv & Hle)]]].
      * vm_compute in He. discriminate.
      * vm_compute in Himg. injection Himg as <-. vm_compute in He. discriminate.
      * discriminate.
      * vm_compute in Himg. injection Himg as <-. vm_compute in Hv.
        injection Hv as <-. vm_compute in Hle. by apply Hle.
    + apply (Hrule "/deck/broken.png").
      * do 2 apply list_elem_of_further. apply list_elem_of_here.
      * left. eexists. reflexivity.
    + apply (Hrule "/deck/tall.png").
      * do 3 apply list_elem_of_further. apply list_elem_of_here.
      * right. left. exists "/deck/tall.png". eexists. split; reflexivity.
Defined.

(** ** C8: the inverted run against the plain run *)

(** C8, as the specification states it, fails: a candidate that is decoded but on
    which the matching raises (here an image in which the template
    does not fit, nor the image in the template) is excluded by both
    runs, so the inverted result is not the complement of the plain
    one. *)
Lemma watermark_invert_not_complement :
  (∀ path, path ∈ ["/deck/tall.png"] → ∃ img, @open_gray sample_lib path = Ok img) ∧
  result_of (@watermark_check_task posix_path sample_lib
               (sample_watermark ["/deck/tall.png"] true)) = Some ["tall.png"] ∧
  result_of (@watermark_check_task posix_path sample_lib
               (sample_watermark ["/deck/tall.png"] false)) = Some ["tall.png"] ∧
  ¬ complement_within (@basename posix_path <$> ["/deck/tall.png"])
      ["tall.png"] ["tall.png"].
Proof.
  split_and!.
  - intros path ->%list_elem_of_singleton. by eexists.
  - reflexivity.
  - reflexivity.
  - intros Hc. destruct (proj1 (Hc "tall.png")) as [_ Hnot].
    + apply list_elem_of_here.
    + apply Hnot, list_elem_of_here.
Qed.

(** C8 (amended): when the template was read, the candidates have
    distinct base names and every candidate is decoded and matched, so
    that each has a score, the list of the inverted run is the
    complement, among the candidates' names, of the list of the plain
    run with the same template, threshold and candidates. *)
Theorem watermark_invert_complement `{OsPath} `{ImageLib}
    (p : watermark_params) (template : gray_image) :
  open_gray (watermark_path p) = Ok template →
  NoDup (basename <$> file_list p) →
  (∀ path, path ∈ file_list p → ∃ v, match_score template path = Ok v) →
  ∃ inverted plain,
    result_of (watermark_check_task (with_invert true p)) = Some inverted ∧
    result_of (watermark_check_task (with_invert false p)) = Some plain ∧
    complement_within (basename <$> file_list p) inverted plain.
Proof.
  intros Htpl Hnodup Hscore.
  destruct (watermark_task_run (with_invert true p) template Htpl) as (s1 & _ & H1).
  destruct (watermark_task_run (with_invert false p) template Htpl) as (s2 & _ & H2).
  eexists _, _. rewrite H1, H2, !result_of_snoc. split_and!; [done|done|].
  intros name. rewrite !elem_of_elements, !watermark_scan_excluded. simpl.
  unfold step_excludes. split.
  - intros (path & Hin & Hbase & Hex). split.
    + rewrite <- Hbase. by apply list_elem_of_fmap_2.
    + intros (q & Hq & Hqbase & Hqex).
      assert (q = path) as ->.
      { apply (fmap_NoDup_inj basename (file_list p)); congruence. }
      destruct (Hscore path Hin) as [v Hv]. rewrite Hv in Hex, Hqex.
      rewrite Hex in Hqex. done.
  - intros [Hname Hnot].
    apply list_elem_of_fmap in Hname as (path & -> & Hin).
    exists path. split_and!; [done|done|].
    destruct (Hscore path Hin) as [v Hv]. rewrite Hv.
    destruct (Qle_bool (wm_threshold p) v) eqn:Hle; [done|].
    destruct Hnot. exists path. rewrite Hv, Hle. done.
Qed.

Lemma watermark_invert_complement_witness :
  ∃ inverted plain,
    result_of (@watermark_check_task posix_path sample_lib
                 (sample_watermark ["/deck/slide1.png"; "/deck/slide2.png"] true))
    = Some inverted ∧
    result_of (@watermark_check_task posix_path sample_lib
                 (sample_watermark ["/deck/slide1.png"; "/deck/slide2.png"] false))
    = Some plain ∧
    complement_within ["slide1.png"; "slide2.png"] inverted plain.
Proof.
  apply (@watermark_invert_complement posix_path sample_lib
           (sample_watermark ["/deck/slide1.png"; "/deck/slide2.png"] false)
           "/marks/logo.png").
  - reflexivity.
  - apply (bool_decide_eq_true_1 (NoDup _)). vm_compute. reflexivity.
  - intros path [->|[->|Hnil]%elem_of_cons]%elem_of_cons.
    + by eexists.
    + by eexists.
    + by apply elem_of_nil in Hnil.
Defined.

(** ** C10: an unreadable template *)

Lemma on_processing_done_nil (task : string) (win : MainWindow) :
  on_processing_done task [] win = win.
Proof.
  destruct win as [folder widgets paths].
  unfold on_processing_done, with_widgets. simpl. f_equal.
  apply map_eq. intros name. rewrite map_lookup_imap.
  destruct (widgets !! name) as [w|]; simpl; [|done].
  case_bool_decide as Hin; [|done]. by apply not_elem_of_empty in Hin.
Qed.

(** C10: when the template cannot be opened or converted, the task
    sends one log line and then a normal [processing_done] for
    "watermark" with the empty list, and nothing else; applying that
    result leaves every thumbnail as it was. *)
Theorem watermark_template_unreadable `{OsPath} `{ImageLib}
    (p : watermark_params) (e : exn) :
  open_gray (watermark_path p) = Raise e →
  watermark_check_task p
  = [log_message (MsgTemplateUnreadable (watermark_path p) e);
     processing_done "watermark" []] ∧
  result_of (watermark_check_task p) = Some [] ∧
  ∀ win, on_processing_done "watermark" [] win = win.
Proof.
  intros He. unfold watermark_check_task. rewrite He.
  split_and!; [done|done|]. apply on_processing_done_nil.
Qed.

Lemma watermark_template_unreadable_witness :
  @watermark_check_task posix_path sample_lib
    {| wm_folder := "/deck"; watermark_path := "/deck/broken.png";
       wm_threshold := 80 # 100; file_list := ["/deck/slide1.png"];
       invert_logic := false |}
  = [log_message (MsgTemplateUnreadable "/deck/broken.png"
                    (Exception "cannot identify image file"));
     processing_done "watermark" []].
Proof.
  apply (@watermark_template_unreadable posix_path sample_lib
           {| wm_folder := "/deck"; watermark_path := "/deck/broken.png";
              wm_threshold := 80 # 100; file_list := ["/deck/slide1.png"];
              invert_logic := false |}).
  reflexivity.
Defined.

(** ** The animation task *)

Section AnimationFacts.
Context `{OsPath} `{ImageLib}.

Lemma adjacent_cons (l : list string) (x a b : string) :
  adjacent (x :: l) a b ↔ (a = x ∧ head l = Some b) ∨ adjacent l a b.
Proof.
  unfold adjacent. split.
  - intros ([|i] & Ha & Hb); simpl in *.
    + left. split; [congruence|]. by destruct l.
    + right. eauto.
  - intros [[-> Hb]|(i & Ha & Hb)].
    + exists 0. split; [done|]. by destruct l.
    + exists (S i). done.
Qed.


Lemma compare_pair_log (folder : string) (threshold : Z) (st : dedup_state)
    (prev_file curr_file : string) :
  ∃ m, an_sent (compare_pair folder threshold st prev_file curr_file)
       = an_sent st ++ [log_message m].
Proof.
  unfold compare_pair.
  destruct (hash_cache st !! prev_file) as [hp|]; [|by eexists].
  destruct (open_phash (join folder curr_file)) as [hc|e]; [|by eexists].
  destruct (Z.of_nat (hash_sub hp hc) <=? threshold)%Z; by eexists.
Qed.

Lemma compare_pair_keeps (folder : string) (threshold : Z) (st : dedup_state)
    (prev_file curr_file : string) :
  an_excluded st ⊆ an_excluded (compare_pair folder threshold st prev_file curr_file).
Proof.
  unfold compare_pair.
  destruct (hash_cache st !! prev_file) as [hp|]; [|done].
  destruct (open_phash (join folder curr_file)) as [hc|e]; [|done].
  destruct (Z.of_nat (hash_sub hp hc) <=? threshold)%Z; simpl; [|done].
  apply union_subseteq_r.
Qed.

Lemma compare_loop_log (folder : string) (threshold : Z)
    (rest : list string) (prev_file : string) (st : dedup_state) :
  Forall is_log (an_sent st) →
  Forall is_log (an_sent (compare_loop folder threshold prev_file rest st)).
Proof.
  revert prev_file st. induction rest as [|c rest IH]; intros prev st Hst; simpl;
    [done|].
  apply IH. destruct (compare_pair_log folder threshold st prev c) as [m ->].
  apply Forall_app. split; [done|]. by repeat constructor.
Qed.

Lemma compare_loop_keeps (folder : string) (threshold : Z)
    (rest : list string) (prev_file : string) (st : dedup_state) :
  an_excluded st ⊆ an_excluded (compare_loop folder threshold prev_file rest st).
Proof.
  revert prev_file st. induction rest as [|c rest IH]; intros prev st; simpl;
    [done|].
  etrans; [apply (compare_pair_keeps folder threshold st prev c)|apply IH].
Qed.

Lemma compare_pair_cache (folder : string) (threshold : Z) (st : dedup_state)
    (prev_file curr_file : string) :
  cache_sound folder (hash_cache st) →
  cache_sound folder (hash_cache (compare_pair folder threshold st prev_file curr_file)).
Proof.
  intros Hst. unfold compare_pair.
  destruct (hash_cache st !! prev_file) as [hp|]; [|done].
  destruct (open_phash (join folder curr_file)) as [hc|e] eqn:Hc; [|done].
  assert (cache_sound folder (<[curr_file := hc]> (hash_cache st))) as Hnew.
  { intros f h. rewrite lookup_insert. case_decide as Hf; [|by apply Hst].
    subst f. by intros [= <-]. }
  by destruct (Z.of_nat (hash_sub hp hc) <=? threshold)%Z.
Qed.



End AnimationFacts.

Section AnimationTask.
Context `{OsPath} `{ImageLib}.

Lemma animation_finish_shape (sent : list signal) (X : gset string) :
  Forall is_log sent →
  ∃ sent', Forall is_log sent' ∧
    animation_finish sent X = sent' ++ [processing_done "animation" (elements X)].
Proof.
  intros Hsent. exists (sent ++ [log_message (MsgAnimationDone (size X))]). split.
  - apply Forall_app. split; [done|]. by repeat constructor.
  - unfold animation_finish. by rewrite <- app_assoc.
Qed.



Lemma adjacent_NoDup_last (l : list string) (i : nat) (a c : string) :
  NoDup l → l !! i = Some a → l !! S i = None → ¬ adjacent l a c.
Proof.
  intros Hnd Ha Hnone (j & Hj & Hc).
  assert (j = i) as -> by (eapply NoDup_lookup; eauto). congruence.
Qed.

End AnimationTask.

(** ** C2: what deduplication excludes *)



(** ** C4: failures during deduplication *)

(** Lines 295-298: when the first candidate cannot be hashed the task
    logs it, sends an empty result and returns.  The two later frames
    are 3 bits apart with threshold 10, yet they are never compared. *)
Example dedup_first_failure_ends_pass :
  (∃ e, @open_phash sample_lib (@join posix_path "/deck" "broken.png") = Raise e) ∧
  @hash_distance posix_path sample_lib "/deck" "slide1.png" "slide2.png" = Some 3 ∧
  @animation_check_task posix_path sample_lib
    (sample_animation ["broken.png"; "slide1.png"; "slide2.png"])
  = [log_message (MsgAnimationStart 10);
     log_message (MsgAnimationCount 3);
     log_message (MsgCannotProcess "broken.png" (Exception "cannot identify image file"));
     processing_done "animation" []].
Proof. split_and!; [by eexists|reflexivity|reflexivity]. Qed.

(** C4: the code on five frames, already in natural order, of which
    [slide3.png] cannot be hashed.  Every other frame can be hashed, and
    [slide4.png] and [slide5.png] carry the same hash, so with threshold
    10 a comparison of that pair would exclude [slide4.png].  The run
    excludes [slide1.png] (3 bits from [slide2.png]) and logs the
    failure on [slide3.png]; then the look-up of [slide3.png] in the
    cache (line 305) raises [KeyError] before [slide4.png] is hashed,
    and the look-up of [slide4.png] raises in the next turn.  The pair
    [slide4.png], [slide5.png] is never compared and [slide4.png] is not
    in the result: the one failure has ended every later comparison. *)
Theorem dedup_failure_poisons_later_pairs :
  sort_natural
    ["slide1.png"; "slide2.png"; "slide3.png"; "slide4.png"; "slide5.png"]
  = ["slide1.png"; "slide2.png"; "slide3.png"; "slide4.png"; "slide5.png"] ∧
  @open_phash sample_lib (@join posix_path "/deck" "slide3.png")
  = Raise (Exception "cannot identify image file") ∧
  @open_phash sample_lib (@join posix_path "/deck" "slide4.png") = Ok 5%N ∧
  @open_phash sample_lib (@join posix_path "/deck" "slide5.png") = Ok 5%N ∧
  @hash_distance posix_path sample_lib "/deck" "slide4.png" "slide5.png" = Some 0 ∧
  an_threshold
    (sample_animation
       ["slide1.png"; "slide2.png"; "slide3.png"; "slide4.png"; "slide5.png"])
  = 10%Z ∧
  @animation_check_task posix_path sample_lib
    (sample_animation
       ["slide1.png"; "slide2.png"; "slide3.png"; "slide4.png"; "slide5.png"])
  = [log_message (MsgAnimationStart 10);
     log_message (MsgAnimationCount 5);
     log_message (MsgSimilar "slide1.png" "slide2.png" 3);
     log_message (MsgCompareError (Exception "cannot identify image file"));
     log_message (MsgCompareError (KeyError "slide3.png"));
     log_message (MsgCompareError (KeyError "slide4.png"));
     log_message (MsgAnimationDone 1);
     processing_done "animation" ["slide1.png"]].
Proof. split_and!; reflexivity. Qed.

(** ** The PDF task *)

Section PdfFacts.
Context `{OsPath} `{ImageLib}.

Lemma add_page_fold (folder : string) (names : list string)
    (images : list rgb_image) (sent : list signal) :
  Forall is_log sent →
  ∃ sent',
    foldl (add_page folder) (images, sent) names
    = (images ++ decoded folder names, sent') ∧
    Forall is_log sent' ∧
    (∀ s, s ∈ sent → s ∈ sent') ∧
    (∀ f e, f ∈ names → open_rgb (join folder f) = Raise e →
            log_message (MsgSkippedUnopenable f e) ∈ sent').
Proof.
  revert images sent. induction names as [|f names IH]; intros images sent Hsent.
  - exists sent. simpl. rewrite app_nil_r. split_and!; [done|done|done|].
    by intros f e ?%elem_of_nil.
  - cbn [foldl]. unfold add_page at 2, decoded. cbn [omap list_omap].
    fold (decoded folder names).
    destruct (open_rgb (join folder f)) as [img|e] eqn:Hf.
    + destruct (IH (images ++ [img]) (sent ++ [log_message (MsgAddPage f)]))
        as (sent' & Hfold & Hlog & Hkeep & Hwarn).
      { apply Forall_app. split; [done|]. by repeat constructor. }
      exists sent'. rewrite Hfold, <- app_assoc. split_and!; [done|done| |].
      * intros s Hs. apply Hkeep, elem_of_app. by left.
      * intros f' e' [->|Hf']%elem_of_cons He'; [congruence|eauto].
    + destruct (IH images ((sent ++ [log_message (MsgAddPage f)])
                             ++ [log_message (MsgSkippedUnopenable f e)]))
        as (sent' & Hfold & Hlog & Hkeep & Hwarn).
      { rewrite !Forall_app. split_and!; [done| |]; by repeat constructor. }
      exists sent'. rewrite Hfold. split_and!; [done|done| |].
      * intros s Hs. apply Hkeep. rewrite !elem_of_app. auto.
      * intros f' e' [->|Hf']%elem_of_cons He'; [|eauto].
        assert (e' = e) as -> by congruence.
        apply Hkeep, elem_of_app. right. apply list_elem_of_here.
Qed.

End PdfFacts.

(** ** C6: decode failures during assembly *)

(** C6: when the first name cannot be opened the job fails, with
    [pdf_done("fail", ...)] as its last signal, and no file is written.
    When the first name opens and the PDF can be written, the job ends
    with [pdf_done("success", path)] whatever happens to the later
    names: each later name that cannot be opened gets a warning line and
    is left out, and the file written holds the cover followed by the
    later pages that opened, in the order of the list.  With three
    names of which only the second cannot be opened the job succeeds
    with exactly two pages. *)
Theorem pdf_decode_failures :
  (∀ (Hpath : OsPath) (Hlib : ImageLib) (p : pdf_params)
     (fs : gmap string pdf_document) (first : string) (others : list string),
     final_list p = first :: others →
     (∀ e, open_rgb (join (pdf_folder p) first) = Raise e →
        ∃ sent,
          create_pdf_task p fs = (sent ++ [pdf_done "fail" (ExnText e)], fs) ∧
          Forall is_log sent) ∧
     (∀ cover,
        open_rgb (join (pdf_folder p) first) = Ok cover →
        save_error (output_path p) (cover :: decoded (pdf_folder p) others) = None →
        ∃ sent,
          create_pdf_task p fs
          = (sent ++ [pdf_done "success" (OutputPath (output_path p))],
             <[output_path p :=
                 {| pages := cover :: decoded (pdf_folder p) others;
                    resolution := 100 |}]> fs) ∧
          Forall is_log sent ∧
          (∀ f e, f ∈ others → open_rgb (join (pdf_folder p) f) = Raise e →
                  log_message (MsgSkippedUnopenable f e) ∈ sent))) ∧
  (∃ sent,
     @create_pdf_task posix_path sample_lib
       (sample_pdf ["slide1.png"; "broken.png"; "slide2.png"] "/deck/deck.pdf") ∅
     = (sent ++ [pdf_done "success" (OutputPath "/deck/deck.pdf")],
        {["/deck/deck.pdf" :=
            @Build_pdf_document sample_lib
              ["/deck/slide1.png"; "/deck/slide2.png"] 100]})).
Proof.
  split.
  - intros Hpath Hlib p fs first others Hlist. split.
    + intros e He. unfold create_pdf_task. rewrite Hlist, He.
      eexists (_ ++ [_]). rewrite <- app_assoc. split; [done|].
      by repeat constructor.
    + intros cover Hcover Hsave. unfold create_pdf_task. rewrite Hlist, Hcover.
      edestruct (add_page_fold (pdf_folder p) others [])
        as (sent & -> & Hlog & _ & Hwarn); [by repeat constructor|].
      simpl. rewrite Hsave.
      exists (sent ++ [log_message MsgPdfCreated]). rewrite <- app_assoc.
      split_and!; [done| |].
      * apply Forall_app. split; [done|]. by repeat constructor.
      * intros f e Hf He. apply elem_of_app. left. eauto.
  - eexists (_ :: _ :: _ :: _ :: _ :: [_]). reflexivity.
Qed.

Lemma pdf_decode_failures_witness :
  ∃ sent,
    @create_pdf_task posix_path sample_lib
      (sample_pdf ["slide1.png"; "broken.png"; "slide2.png"] "/deck/deck.pdf") ∅
    = (sent ++ [pdf_done "success" (OutputPath "/deck/deck.pdf")],
       {["/deck/deck.pdf" :=
           @Build_pdf_document sample_lib
             ["/deck/slide1.png"; "/deck/slide2.png"] 100]}) ∧
    log_message (MsgSkippedUnopenable "broken.png"
                   (Exception "cannot identify image file")) ∈ sent.
Proof.
  destruct (proj2 (proj1 pdf_decode_failures posix_path sample_lib
              (sample_pdf ["slide1.png"; "broken.png"; "slide2.png"] "/deck/deck.pdf")
              ∅ "slide1.png" ["broken.png"; "slide2.png"] eq_refl)
              "/deck/slide1.png" eq_refl eq_refl)
    as (sent & Htask & _ & Hwarn).
  exists sent. split; [exact Htask|].
  apply Hwarn; [|reflexivity].
  apply list_elem_of_here.
Defined.

(** ** C7: an empty selection *)

(** C7: with an empty list the task sends one log line and
    [pdf_done("fail", ...)] with the fixed text, opens nothing and
    leaves every file, the destination included, as it was. *)
Theorem pdf_empty_selection `{OsPath} `{ImageLib}
    (p : pdf_params) (fs : gmap string pdf_document) :
  final_list p = [] →
  create_pdf_task p fs
  = ([log_message MsgNothingToInclude; pdf_done "fail" NoImagesText], fs) ∧
  (create_pdf_task p fs).2 !! output_path p = fs !! output_path p.
Proof.
  intros Hlist. unfold create_pdf_task. by rewrite Hlist.
Qed.

Lemma pdf_empty_selection_witness :
  @create_pdf_task posix_path sample_lib (sample_pdf [] "/deck/deck.pdf") ∅
  = ([log_message MsgNothingToInclude; pdf_done "fail" NoImagesText], ∅).
Proof.
  apply (@pdf_empty_selection posix_path sample_lib
           (sample_pdf [] "/deck/deck.pdf") ∅ eq_refl).
Defined.

(** * Further properties of the program *)

(** ** The sort and the key *)

Module KeyFacts.
Import SplitFacts OrderFacts.

Lemma is_digit_lower (c : ascii) : is_digit (lower_char c) = is_digit c.
Proof. destruct c as [[] [] [] [] [] [] [] []]; reflexivity. Qed.

Lemma lower_char_idemp (c : ascii) : lower_char (lower_char c) = lower_char c.
Proof. destruct c as [[] [] [] [] [] [] [] []]; reflexivity. Qed.

Lemma lower_char_digit (c : ascii) : is_digit c = true → lower_char c = c.
Proof. destruct c as [[] [] [] [] [] [] [] []]; simpl; done. Qed.

Lemma lower_idemp (s : string) : lower (lower s) = lower s.
Proof. induction s as [|c s IH]; simpl; [done|]. by rewrite lower_char_idemp, IH. Qed.

Lemma lower_digits (s : string) : all_digits s = true → lower s = s.
Proof.
  induction s as [|c s IH]; simpl; [done|].
  intros [Hc Hs]%andb_true_iff. by rewrite lower_char_digit, IH.
Qed.

Lemma all_digits_lower (s : string) : all_digits (lower s) = all_digits s.
Proof. induction s as [|c s IH]; simpl; [done|]. by rewrite is_digit_lower, IH. Qed.

Lemma isdigit_lower (s : string) : isdigit (lower s) = isdigit s.
Proof.
  destruct s as [|c s]; [done|].
  change (all_digits (lower (String c s)) = all_digits (String c s)).
  apply all_digits_lower.
Qed.

Lemma key_of_piece_lower (t : string) : key_of_piece (lower t) = key_of_piece t.
Proof.
  unfold key_of_piece. rewrite isdigit_lower.
  destruct (isdigit t) eqn:Ht.
  - rewrite lower_digits; [done|]. by destruct t.
  - by rewrite lower_idemp.
Qed.

Lemma re_split_lower (s : string) :
  re_split_digits (lower s) = map lower (re_split_digits s).
Proof.
  induction s as [|c s IH]; simpl; [done|].
  rewrite is_digit_lower, IH.
  destruct (is_digit c) eqn:Hc.
  - rewrite (lower_char_digit c Hc).
    destruct (re_split_digits s) as [|[|c' t] [|d rest]]; simpl;
      by rewrite (lower_char_digit c Hc).
  - by destruct (re_split_digits s) as [|t rest].
Qed.

Lemma natural_sort_key_lower (s : string) :
  natural_sort_key (lower s) = natural_sort_key s.
Proof.
  unfold natural_sort_key. rewrite re_split_lower, map_map.
  apply map_ext. intros t. apply key_of_piece_lower.
Qed.



End KeyFacts.

(** X2: the key does not see letter case: two names that are the same
    once lower-cased have the same key, so neither sorts before the
    other. *)
Theorem natural_sort_key_ignores_case (s t : string) :
  lower s = lower t →
  natural_sort_key s = natural_sort_key t ∧
  natural_ltb s t = false ∧ natural_ltb t s = false.
Proof.
  intros Hst.
  assert (natural_sort_key s = natural_sort_key t) as Hkey.
  { by rewrite <- (KeyFacts.natural_sort_key_lower s), Hst,
      KeyFacts.natural_sort_key_lower. }
  split; [done|].
  rewrite !OrderFacts.natural_ltb_compare, Hkey, CompareFacts.pylist_compare_refl.
  done.
Qed.

Lemma natural_sort_key_ignores_case_witness :
  natural_sort_key "Slide7.PNG" = natural_sort_key "slide7.png".
Proof.
  apply (natural_sort_key_ignores_case "Slide7.PNG" "slide7.png"). reflexivity.
Defined.



(** ** Thumbnails and buttons *)

Section ButtonFacts.
Context `{OsPath}.

Lemma window_eq (w1 w2 : MainWindow) :
  image_folder w1 = image_folder w2 →
  thumbnail_widgets w1 = thumbnail_widgets w2 →
  all_files_paths w1 = all_files_paths w2 →
  w1 = w2.
Proof. destruct w1, w2. simpl. by intros -> -> ->. Qed.

Lemma for_all_widgets_fmap (f : ThumbnailWidget → ThumbnailWidget) (win : MainWindow) :
  for_all_widgets f win = with_widgets (fmap f) win.
Proof.
  unfold for_all_widgets. case_bool_decide as Hempty; [|done].
  apply window_eq; simpl; [done| |done]. by rewrite Hempty, fmap_empty.
Qed.

Lemma for_all_widgets_compose (f g : ThumbnailWidget → ThumbnailWidget)
    (h : ThumbnailWidget → ThumbnailWidget) (win : MainWindow) :
  (∀ name w, thumbnail_widgets win !! name = Some w → f (g w) = h w) →
  for_all_widgets f (for_all_widgets g win) = for_all_widgets h win.
Proof.
  intros Hfg. rewrite !for_all_widgets_fmap.
  apply window_eq; simpl; [done| |done].
  rewrite <- map_fmap_compose. by apply map_fmap_ext.
Qed.

Lemma set_selected_forced_true (w : ThumbnailWidget) :
  set_selected true true w
  = {| file_path := file_path w; file_name := file_name w;
       is_selected := true; is_filtered := false |}.
Proof. done. Qed.

Lemma soft_step_keeps_filter (win : MainWindow) (a : action)
    (name : string) (w : ThumbnailWidget) :
  is_soft a →
  thumbnail_widgets win !! name = Some w →
  is_filtered w = true → is_selected w = false →
  ∃ w', thumbnail_widgets (step win a) !! name = Some w' ∧
        is_filtered w' = true ∧ is_selected w' = false.
Proof.
  intros Ha Hw Hf Hs. destruct a as [ps|k c|task l| | |]; simpl in Ha; try done;
    cbn [step].
  - unfold on_widget. simpl. rewrite lookup_alter.
    case_decide as Hk.
    + subst k. rewrite Hw. simpl. eexists. split; [done|].
      destruct c as [[]|b []|]; simpl in *; try done.
      unfold set_selected. destruct b; simpl; rewrite ?Hf; done.
    + by exists w.
  - rewrite on_processing_done_lookup, Hw. simpl. eexists. split; [done|].
    case_bool_decide; done.
  - unfold select_visible_thumbnails. rewrite for_all_widgets_lookup, Hw. simpl.
    eexists. split; [done|]. unfold set_selected. simpl. by rewrite Hf.
  - unfold deselect_all_thumbnails. rewrite for_all_widgets_lookup, Hw. simpl.
    eexists. split; [done|]. done.
Qed.

(** What loading leaves under a name: the thumbnail of the last path
    with that base name, or what was there when no path has it. *)
Lemma loaded_fold_lookup (paths : list string) (m : gmap string ThumbnailWidget)
    (name : string) (w : ThumbnailWidget) :
  foldl (λ m p, <[basename p := new_thumbnail p]> m) m paths !! name = Some w →
  (m !! name = Some w ∧ (name ∉ basename <$> paths)) ∨
  (∃ l1 p l2, paths = l1 ++ p :: l2 ∧ basename p = name ∧
              (name ∉ basename <$> l2) ∧ w = new_thumbnail p).
Proof.
  revert m. induction paths as [|p ps IH]; intros m; simpl.
  - intros Hw. left. split; [done|]. apply not_elem_of_nil.
  - intros Hw. destruct (IH _ Hw) as [[Hm Hnot]|(l1 & q & l2 & -> & Hq & Hl2 & ->)].
    + rewrite lookup_insert in Hm. case_decide as Hp.
      * injection Hm as <-. right. by exists [], p, ps.
      * left. split; [done|]. rewrite not_elem_of_cons. done.
    + right. by exists (p :: l1), q, l2.
Qed.

Lemma loaded_fold_is_Some (paths : list string) (m : gmap string ThumbnailWidget)
    (name : string) :
  is_Some (foldl (λ m p, <[basename p := new_thumbnail p]> m) m paths !! name) ↔
  is_Some (m !! name) ∨ name ∈ basename <$> paths.
Proof.
  revert m. induction paths as [|p ps IH]; intros m; simpl.
  - split; [auto|]. intros [?|Hin]; [done|]. by apply elem_of_nil in Hin.
  - rewrite IH, lookup_insert_is_Some, elem_of_cons. split.
    + intros [[->|[_ Hm]]|Hin]; auto.
    + intros [Hm|[->|Hin]]; auto.
      destruct (decide (basename p = name)); auto.
Qed.

End ButtonFacts.

(** X4: "reset" keeps the thumbnails and leaves every one of them
    selected and not filtered, with its path and name, whatever it was
    before; on a window that was just loaded it changes nothing. *)
Theorem reset_all_thumbnails_spec `{OsPath} (win : MainWindow) :
  dom (thumbnail_widgets (reset_all_thumbnails win)) = dom (thumbnail_widgets win) ∧
  (∀ name w, thumbnail_widgets win !! name = Some w →
     thumbnail_widgets (reset_all_thumbnails win) !! name
     = Some {| file_path := file_path w; file_name := file_name w;
               is_selected := true; is_filtered := false |}) ∧
  (∀ paths, reset_all_thumbnails (on_files_loaded paths win) = on_files_loaded paths win).
Proof.
  unfold reset_all_thumbnails. split_and!.
  - apply set_eq. intros k. rewrite !elem_of_dom, for_all_widgets_lookup.
    by rewrite fmap_is_Some.
  - intros name w Hw. by rewrite for_all_widgets_lookup, Hw.
  - intros paths. rewrite for_all_widgets_fmap.
    apply window_eq; simpl; [done| |done].
    apply map_eq. intros name. rewrite lookup_fmap.
    destruct (foldl _ ∅ paths !! name) as [w|] eqn:Hw; simpl; [|done].
    apply loaded_fold_lookup in Hw as [[Hw _]|(l1 & p & l2 & _ & _ & _ & ->)]; done.
Qed.

Lemma reset_all_thumbnails_spec_witness :
  thumbnail_widgets (reset_all_thumbnails sample_window) !! "slide1.png"
  = Some {| file_path := "/deck/slide1.png"; file_name := "slide1.png";
            is_selected := true; is_filtered := false |}.
Proof.
  apply (proj1 (proj2 (@reset_all_thumbnails_spec posix_path sample_window))
           "slide1.png"
           {| file_path := "/deck/slide1.png"; file_name := "slide1.png";
              is_selected := false; is_filtered := true |}).
  vm_compute. reflexivity.
Defined.

(** X5: how the three buttons compose.  "Select visible" twice is once;
    "deselect all" forgets an earlier "select visible"; on a window
    that keeps the invariant "select visible" forgets an earlier
    "deselect all"; and "reset" forgets earlier button presses and
    detection results alike. *)
Theorem button_algebra (win : MainWindow) :
  select_visible_thumbnails (select_visible_thumbnails win)
  = select_visible_thumbnails win ∧
  deselect_all_thumbnails (select_visible_thumbnails win)
  = deselect_all_thumbnails win ∧
  (window_ok win →
   select_visible_thumbnails (deselect_all_thumbnails win)
   = select_visible_thumbnails win) ∧
  reset_all_thumbnails (select_visible_thumbnails win) = reset_all_thumbnails win ∧
  reset_all_thumbnails (deselect_all_thumbnails win) = reset_all_thumbnails win ∧
  (∀ task l,
     reset_all_thumbnails (on_processing_done task l win) = reset_all_thumbnails win).
Proof.
  unfold select_visible_thumbnails, deselect_all_thumbnails, reset_all_thumbnails.
  split_and!.
  - apply for_all_widgets_compose. intros name w _.
    unfold set_selected. by destruct (is_filtered w) eqn:Hf; simpl; rewrite ?Hf.
  - apply for_all_widgets_compose. intros name w _.
    unfold set_selected. by destruct (is_filtered w) eqn:Hf; simpl; rewrite ?Hf.
  - intros Hwin. apply for_all_widgets_compose. intros name w Hw.
    pose proof (proj1 (window_ok_lookup win) Hwin name w Hw) as Hok.
    unfold widget_ok in Hok.
    unfold set_selected. simpl. destruct (is_filtered w) eqn:Hf; simpl; [|done].
    destruct w as [p n s f]. simpl in *. subst f. by rewrite (Hok eq_refl).
  - apply for_all_widgets_compose. intros name w _.
    unfold set_selected. by destruct (is_filtered w) eqn:Hf; simpl; rewrite ?Hf.
  - by apply for_all_widgets_compose.
  - intros task l. rewrite !for_all_widgets_fmap.
    apply window_eq; simpl; [done| |done].
    apply map_eq. intros name.
    rewrite !lookup_fmap.
    pose proof (on_processing_done_lookup task l win name) as Hl.
    unfold on_processing_done, with_widgets in Hl. simpl in Hl. rewrite Hl.
    destruct (thumbnail_widgets win !! name) as [w|]; simpl; [|done].
    by case_bool_decide.
Qed.

Lemma button_algebra_witness :
  select_visible_thumbnails (deselect_all_thumbnails sample_window)
  = select_visible_thumbnails sample_window.
Proof.
  apply (proj1 (proj2 (proj2 (button_algebra sample_window)))).
  apply (bool_decide_eq_true_1 (window_ok sample_window)). vm_compute. reflexivity.
Defined.

(** X6: clicking a thumbnail twice brings it back to where it was
    exactly when it was not filtered; one click on a filtered,
    unselected thumbnail selects it and clears the filter, so the second
    click leaves it unselected and unfiltered. *)
Theorem click_twice (w : ThumbnailWidget) :
  (mousePressEvent (mousePressEvent w) = w ↔ is_filtered w = false) ∧
  (is_filtered w = true → is_selected w = false →
   is_selected (mousePressEvent w) = true ∧
   is_filtered (mousePressEvent w) = false ∧
   is_selected (mousePressEvent (mousePressEvent w)) = false ∧
   is_filtered (mousePressEvent (mousePressEvent w)) = false).
Proof.
  destruct w as [p n [] []]; unfold mousePressEvent, set_selected; simpl;
    split; try done; split; congruence.
Qed.

Lemma click_twice_witness :
  is_selected (mousePressEvent
                 {| file_path := "/deck/slide1.png"; file_name := "slide1.png";
                    is_selected := false; is_filtered := true |}) = true.
Proof.
  apply (proj2 (click_twice
                  {| file_path := "/deck/slide1.png"; file_name := "slide1.png";
                     is_selected := false; is_filtered := true |}));
    reflexivity.
Defined.

(** X7: detection results add up.  Applying one list after another is
    applying both at once; no thumbnail is created for a name the window
    does not have; a thumbnail is filtered afterwards exactly when it
    was before or its name is in the list, and selected exactly when it
    was before and its name is not in the list. *)
Theorem processing_done_accumulates (win : MainWindow) :
  (∀ t1 t2 l1 l2,
     on_processing_done t2 l2 (on_processing_done t1 l1 win)
     = on_processing_done t2 (l1 ++ l2) win) ∧
  (∀ task l,
     dom (thumbnail_widgets (on_processing_done task l win))
     = dom (thumbnail_widgets win)) ∧
  (∀ task l name w,
     thumbnail_widgets win !! name = Some w →
     ∃ w', thumbnail_widgets (on_processing_done task l win) !! name = Some w' ∧
           is_filtered w' = is_filtered w || bool_decide (name ∈ l) ∧
           is_selected w' = is_selected w && negb (bool_decide (name ∈ l))).
Proof.
  split_and!.
  - intros t1 t2 l1 l2. apply window_eq; [done| |done].
    apply map_eq. intros name. rewrite !on_processing_done_lookup.
    destruct (thumbnail_widgets win !! name) as [w|]; simpl; [|done].
    f_equal. rewrite (bool_decide_ext (name ∈ l1 ++ l2) (name ∈ l1 ∨ name ∈ l2))
      by apply elem_of_app.
    destruct (bool_decide (name ∈ l1)) eqn:H1, (bool_decide (name ∈ l2)) eqn:H2;
      rewrite ?bool_decide_eq_true, ?bool_decide_eq_false in *;
      (rewrite bool_decide_true by tauto) || (rewrite bool_decide_false by tauto);
      done.
  - intros task l. apply set_eq. intros k.
    rewrite !elem_of_dom, on_processing_done_lookup. by rewrite fmap_is_Some.
  - intros task l name w Hw. rewrite on_processing_done_lookup, Hw. simpl.
    eexists. split; [done|].
    destruct (bool_decide (name ∈ l)); simpl; rewrite ?orb_true_r, ?orb_false_r,
      ?andb_true_r, ?andb_false_r; done.
Qed.

Lemma processing_done_accumulates_witness :
  ∃ w', thumbnail_widgets (on_processing_done "animation" ["slide2.png"] sample_window)
          !! "slide2.png" = Some w' ∧
        is_filtered w' = true ∧ is_selected w' = false.
Proof.
  destruct (proj2 (proj2 (processing_done_accumulates sample_window))
              "animation" ["slide2.png"] "slide2.png"
              {| file_path := "/deck/slide2.png"; file_name := "slide2.png";
                 is_selected := false; is_filtered := false |})
    as (w' & Hw' & Hf & Hs).
  - vm_compute. reflexivity.
  - exists w'. split_and!; [exact Hw'|exact Hf|exact Hs].
Defined.

(** X8: only a forced action can bring back an excluded image.  Through
    any sequence of detection results, "select visible", "deselect all"
    and soft calls, a thumbnail that is filtered and unselected stays
    filtered and unselected. *)
Theorem filter_is_sticky `{OsPath} (acts : list action) (win : MainWindow)
    (name : string) (w : ThumbnailWidget) :
  Forall is_soft acts →
  thumbnail_widgets win !! name = Some w →
  is_filtered w = true → is_selected w = false →
  ∃ w', thumbnail_widgets (run acts win) !! name = Some w' ∧
        is_filtered w' = true ∧ is_selected w' = false.
Proof.
  intros Hacts. revert win w.
  induction Hacts as [|a acts Ha Hacts IH]; intros win w Hw Hf Hs.
  - by exists w.
  - destruct (soft_step_keeps_filter win a name w Ha Hw Hf Hs) as (w1 & Hw1 & Hf1 & Hs1).
    apply (IH (step win a) w1 Hw1 Hf1 Hs1).
Qed.

Lemma filter_is_sticky_witness :
  ∃ w', thumbnail_widgets
          (@run posix_path
             [SelectVisible; ProcessingDone "animation" ["slide2.png"]; SelectVisible]
             sample_window) !! "slide1.png" = Some w' ∧
        is_filtered w' = true ∧ is_selected w' = false.
Proof.
  apply (@filter_is_sticky posix_path
           [SelectVisible; ProcessingDone "animation" ["slide2.png"]; SelectVisible]
           sample_window "slide1.png"
           {| file_path := "/deck/slide1.png"; file_name := "slide1.png";
              is_selected := false; is_filtered := true |}).
  - repeat constructor.
  - vm_compute. reflexivity.
  - reflexivity.
  - reflexivity.
Defined.

(** X9: loading a file list replaces the thumbnails: the names are
    exactly the base names of the paths, each one holds a selected,
    unfiltered thumbnail made from the last path with that base name,
    and with distinct base names there is one thumbnail per path. *)
Theorem on_files_loaded_spec `{OsPath} (paths : list string) (win : MainWindow) :
  all_files_paths (on_files_loaded paths win) = paths ∧
  (∀ name, name ∈ dom (thumbnail_widgets (on_files_loaded paths win)) ↔
           name ∈ basename <$> paths) ∧
  (∀ name w,
     thumbnail_widgets (on_files_loaded paths win) !! name = Some w →
     is_selected w = true ∧ is_filtered w = false ∧ file_name w = name ∧
     ∃ l1 l2, paths = l1 ++ file_path w :: l2 ∧ (name ∉ basename <$> l2)) ∧
  (NoDup (basename <$> paths) →
   size (thumbnail_widgets (on_files_loaded paths win)) = length paths).
Proof.
  assert (∀ name, name ∈ dom (thumbnail_widgets (on_files_loaded paths win)) ↔
                  name ∈ basename <$> paths) as Hdom.
  { intros name. rewrite elem_of_dom. unfold on_files_loaded. simpl.
    rewrite loaded_fold_is_Some, lookup_empty. split; [|auto].
    by intros [[? ?]|?]. }
  split_and!; [done|done| |].
  - intros name w Hw. unfold on_files_loaded in Hw. simpl in Hw.
    apply loaded_fold_lookup in Hw as [[Hw _]|(l1 & p & l2 & -> & Hp & Hl2 & ->)];
      [done|].
    simpl. split_and!; [done|done|done|]. by exists l1, l2.
  - intros Hnd. rewrite <- size_dom.
    assert (dom (thumbnail_widgets (on_files_loaded paths win))
            = list_to_set (basename <$> paths)) as ->.
    { apply set_eq. intros name. by rewrite Hdom, elem_of_list_to_set. }
    by rewrite size_list_to_set, length_fmap.
Qed.

Lemma on_files_loaded_spec_witness :
  size (thumbnail_widgets
          (@on_files_loaded posix_path ["/deck/slide1.png"; "/deck/slide2.png"] new_window))
  = 2.
Proof.
  apply (proj2 (proj2 (proj2 (@on_files_loaded_spec posix_path
           ["/deck/slide1.png"; "/deck/slide2.png"] new_window)))).
  apply (bool_decide_eq_true_1 (NoDup _)). vm_compute. reflexivity.
Defined.

(** ** Reading the thumbnails *)

Section ReaderFacts.

Lemma dict_items_lookup (win : MainWindow) (items : list (string * ThumbnailWidget))
    (name : string) (w : ThumbnailWidget) :
  dict_items win items →
  (name, w) ∈ items ↔ thumbnail_widgets win !! name = Some w.
Proof. intros [Hnd <-]. by apply elem_of_list_to_map. Qed.

Lemma dict_items_size (win : MainWindow) (items : list (string * ThumbnailWidget)) :
  dict_items win items → length items = size (thumbnail_widgets win).
Proof.
  intros Hitems. rewrite <- length_map_to_list. apply Permutation_length.
  apply NoDup_Permutation.
  - destruct Hitems as [Hnd _]. by apply NoDup_fmap_1 in Hnd.
  - apply NoDup_map_to_list.
  - intros [name w]. by rewrite elem_of_map_to_list, (dict_items_lookup win items).
Qed.

Lemma collect_file_wanted (filtered : bool) (files : list string)
    (name : string) (w : ThumbnailWidget) :
  collect_file filtered files (name, w)
  = if wanted filtered w then files ++ [name] else files.
Proof. unfold collect_file, wanted. by destruct filtered, (is_filtered w), (is_selected w). Qed.

Lemma collect_fold (filtered : bool) (items : list (string * ThumbnailWidget))
    (files : list string) :
  foldl (collect_file filtered) files items
  = files ++ (filter (λ it, wanted filtered it.2 = true) items).*1.
Proof.
  revert files. induction items as [|[name w] items IH]; intros files; cbn [foldl].
  - simpl. by rewrite app_nil_r.
  - rewrite IH, collect_file_wanted, filter_cons. cbn [snd].
    destruct (decide (wanted filtered w = true)) as [Hw|Hw].
    + rewrite Hw. simpl. by rewrite <- app_assoc.
    + apply not_true_is_false in Hw. by rewrite Hw.
Qed.

Lemma get_selected_files_perm (items : list (string * ThumbnailWidget)) (filtered : bool) :
  Permutation (get_selected_files items filtered)
    (filter (λ it, wanted filtered it.2 = true) items).*1.
Proof.
  unfold get_selected_files. rewrite collect_fold. apply SortFacts.sort_natural_perm.
Qed.

Lemma get_selected_files_elem (items : list (string * ThumbnailWidget))
    (filtered : bool) (name : string) :
  name ∈ get_selected_files items filtered ↔
  ∃ w, (name, w) ∈ items ∧ wanted filtered w = true.
Proof.
  rewrite get_selected_files_perm, list_elem_of_fmap. split.
  - intros ([n w] & -> & [Hw Hin]%list_elem_of_filter). eauto.
  - intros (w & Hin & Hw). exists (name, w). split; [done|].
    by apply list_elem_of_filter.
Qed.

Lemma get_selected_files_NoDup (items : list (string * ThumbnailWidget)) (filtered : bool) :
  NoDup items.*1 → NoDup (get_selected_files items filtered).
Proof.
  intros Hnd. rewrite get_selected_files_perm.
  eapply sublist_NoDup; [exact Hnd|].
  apply fmap_sublist, sublist_filter.
Qed.

Lemma count_fold (ws : list ThumbnailWidget) (acc : nat * nat) :
  foldl count_widget acc ws
  = (acc.1 + length (filter (λ w, is_selected w = true) ws),
     acc.2 + length (filter (λ w, is_filtered w = true) ws)).
Proof.
  revert acc. induction ws as [|w ws IH]; intros [s f]; simpl.
  - f_equal; lia.
  - rewrite IH, !filter_cons. simpl.
    destruct (is_selected w), (is_filtered w); simpl;
      repeat case_decide; try done; simpl; f_equal; lia.
Qed.

Lemma filter_snd_length (P : ThumbnailWidget → bool)
    (items : list (string * ThumbnailWidget)) :
  length (filter (λ w, P w = true) items.*2)
  = length (filter (λ it, P it.2 = true) items).
Proof.
  induction items as [|[n w] items IH]; [done|].
  rewrite fmap_cons, !filter_cons. cbn [snd].
  destruct (decide (P w = true)); cbn [length]; by rewrite IH.
Qed.

Lemma exclusive_filters (ws : list ThumbnailWidget) :
  Forall widget_ok ws →
  (length (filter (λ w, is_selected w = true) ws)
   + length (filter (λ w, is_filtered w = true) ws) ≤ length ws)%nat.
Proof.
  induction 1 as [|w ws Hw Hws IH]; simpl; [done|].
  rewrite !filter_cons. unfold widget_ok in Hw.
  destruct (is_selected w) eqn:Hs, (is_filtered w) eqn:Hf;
    repeat case_decide; try done; simpl; try lia.
Qed.

End ReaderFacts.

(** X10: the three labels agree with the lists the tasks are given: the
    total is the number of thumbnails, "selected" is the length of
    [get_selected_files()] and "filtered" the length of
    [get_selected_files(filtered=True)]; on a window that keeps the
    invariant, selected and filtered together never exceed the total. *)
Theorem update_stats_spec (win : MainWindow) (items : list (string * ThumbnailWidget)) :
  dict_items win items →
  update_stats items
  = (size (thumbnail_widgets win),
     length (get_selected_files items false),
     length (get_selected_files items true)) ∧
  (window_ok win →
   (length (get_selected_files items false)
    + length (get_selected_files items true) ≤ size (thumbnail_widgets win))%nat).
Proof.
  intros Hitems.
  assert (∀ b, length (get_selected_files items b)
               = length (filter (λ w, wanted b w = true) items.*2)) as Hlen.
  { intros b. rewrite (Permutation_length (get_selected_files_perm items b)).
    by rewrite length_fmap, (filter_snd_length (wanted b)). }
  split.
  - unfold update_stats. rewrite count_fold. simpl.
    by rewrite (dict_items_size win items Hitems), !Hlen.
  - intros Hwin. rewrite !Hlen, <- (dict_items_size win items Hitems).
    rewrite <- (length_fmap snd items). apply exclusive_filters.
    apply Forall_forall. intros w Hw.
    apply list_elem_of_fmap in Hw as ([name w'] & -> & Hin).
    apply (dict_items_lookup win items name w' Hitems) in Hin.
    by apply (proj1 (window_ok_lookup win) Hwin name).
Qed.

Lemma update_stats_spec_witness : update_stats sample_items = (3, 0, 1).
Proof.
  destruct (update_stats_spec sample_window sample_items) as [Hstats _].
  - apply (bool_decide_eq_true_1 (dict_items sample_window sample_items)).
    vm_compute. reflexivity.
  - rewrite Hstats. vm_compute. reflexivity.
Defined.

(** X11: [get_selected_files] returns, in natural order and without
    repetition, exactly the names of the thumbnails that are selected
    (or, when asked so, filtered); on a window that keeps the invariant
    no name is in both lists. *)
Theorem get_selected_files_spec (win : MainWindow)
    (items : list (string * ThumbnailWidget)) (filtered : bool) :
  dict_items win items →
  Sorted natural_le (get_selected_files items filtered) ∧
  NoDup (get_selected_files items filtered) ∧
  (∀ name, name ∈ get_selected_files items filtered ↔
           ∃ w, thumbnail_widgets win !! name = Some w ∧ wanted filtered w = true) ∧
  (window_ok win →
   ∀ name, name ∈ get_selected_files items false →
           name ∉ get_selected_files items true).
Proof.
  intros Hitems.
  assert (∀ b name, name ∈ get_selected_files items b ↔
            ∃ w, thumbnail_widgets win !! name = Some w ∧ wanted b w = true) as Hin.
  { intros b name. rewrite get_selected_files_elem.
    by setoid_rewrite (dict_items_lookup win items name _ Hitems). }
  split_and!.
  - apply SortFacts.sort_natural_sorted.
  - apply get_selected_files_NoDup. by destruct Hitems.
  - apply Hin.
  - intros Hwin name. rewrite !Hin. intros (w & Hw & Hsel) (w' & Hw' & Hfil).
    assert (w' = w) as -> by congruence. simpl in *.
    pose proof (proj1 (window_ok_lookup win) Hwin name w Hw Hfil). congruence.
Qed.

Lemma get_selected_files_spec_witness :
  get_selected_files sample_items true = ["slide1.png"] ∧
  Sorted natural_le (get_selected_files sample_items true).
Proof.
  split; [reflexivity|].
  apply (get_selected_files_spec sample_window sample_items true).
  apply (bool_decide_eq_true_1 (dict_items sample_window sample_items)).
  vm_compute. reflexivity.
Defined.

(** ** The grid *)

Section GridFacts.

Lemma cell_succ (cols : Z) (k : nat) :
  (0 < cols)%Z →
  cell cols (S k)
  = if (cols <=? (cell cols k).2 + 1)%Z
    then ((cell cols k).1 + 1, 0)%Z
    else ((cell cols k).1, (cell cols k).2 + 1)%Z.
Proof.
  intros Hcols. unfold cell. simpl fst. simpl snd.
  rewrite Nat2Z.inj_succ. set (K := Z.of_nat k).
  assert (0 ≤ K)%Z as HK by (unfold K; lia).
  pose proof (Z.div_mod K cols ltac:(lia)) as Hdm.
  pose proof (Z.mod_pos_bound K cols Hcols) as Hm.
  destruct (Z.leb_spec cols (K mod cols + 1)) as [Hle|Hlt].
  - assert (Z.succ K = cols * (K / cols + 1) + 0)%Z as Heq by lia.
    f_equal.
    + symmetry. apply (Z.div_unique _ _ _ 0%Z); [lia|exact Heq].
    + symmetry. apply (Z.mod_unique _ _ (K / cols + 1)%Z); [lia|exact Heq].
  - assert (Z.succ K = cols * (K / cols) + (K mod cols + 1))%Z as Heq by lia.
    f_equal.
    + symmetry. apply (Z.div_unique _ _ _ (K mod cols + 1)%Z); [lia|exact Heq].
    + symmetry. apply (Z.mod_unique _ _ (K / cols)%Z); [lia|exact Heq].
Qed.

Lemma place_fold (cols : Z) (names : list string) (st : grid_walk) (k : nat) :
  (0 < cols)%Z →
  (grid_row st, grid_col st) = cell cols k →
  placed (foldl (place_widget cols) st names)
  = placed st ++ imap (λ i name, (name, cell cols (k + i))) names.
Proof.
  intros Hcols. revert st k.
  induction names as [|n names IH]; intros st k Hst; cbn [foldl].
  - simpl. by rewrite app_nil_r.
  - rewrite (IH _ (S k)).
    + simpl. rewrite <- app_assoc. simpl. rewrite Nat.add_0_r, <- Hst.
      do 2 f_equal. apply imap_ext. intros i x _. simpl. do 2 f_equal. lia.
    + rewrite (cell_succ cols k Hcols), <- Hst. simpl.
      by destruct (cols <=? grid_col st + 1)%Z.
Qed.

Lemma grid_cols_pos (viewport_width : Z) : (1 ≤ grid_cols viewport_width)%Z.
Proof. unfold grid_cols. lia. Qed.

Lemma update_grid_layout_cells (viewport_width : Z)
    (items : list (string * ThumbnailWidget)) :
  update_grid_layout viewport_width items
  = imap (λ k name, (name, cell (grid_cols viewport_width) k)) (sort_natural items.*1).
Proof.
  unfold update_grid_layout. destruct items as [|it items]; [done|].
  pose proof (grid_cols_pos viewport_width).
  rewrite (place_fold _ _ _ 0); [done|lia|].
  unfold cell. simpl. by rewrite Z.div_0_l, Z.mod_0_l by lia.
Qed.

End GridFacts.

(** X12: the grid is filled row by row: with [cols] columns, at least
    one, the thumbnail of rank [k] in natural order is put in row
    [k / cols], column [k mod cols]; so every column index is below
    [cols] and no two thumbnails get the same cell. *)
Theorem update_grid_layout_spec (viewport_width : Z)
    (items : list (string * ThumbnailWidget)) :
  (1 ≤ grid_cols viewport_width)%Z ∧
  update_grid_layout viewport_width items
  = imap (λ k name, (name, cell (grid_cols viewport_width) k)) (sort_natural items.*1) ∧
  (∀ k name r c,
     update_grid_layout viewport_width items !! k = Some (name, (r, c)) →
     sort_natural items.*1 !! k = Some name ∧
     (0 ≤ r)%Z ∧ (0 ≤ c < grid_cols viewport_width)%Z ∧
     Z.of_nat k = (r * grid_cols viewport_width + c)%Z) ∧
  NoDup (update_grid_layout viewport_width items).*2.
Proof.
  pose proof (grid_cols_pos viewport_width) as Hcols.
  assert (∀ k name r c,
            update_grid_layout viewport_width items !! k = Some (name, (r, c)) →
            sort_natural items.*1 !! k = Some name ∧
            (0 ≤ r)%Z ∧ (0 ≤ c < grid_cols viewport_width)%Z ∧
            Z.of_nat k = (r * grid_cols viewport_width + c)%Z) as Hcell.
  { intros k name r c. rewrite update_grid_layout_cells, list_lookup_imap.
    destruct (sort_natural items.*1 !! k) as [n|]; simpl; [|done].
    unfold cell. intros [= -> <- <-]. split; [done|].
    pose proof (Z.div_mod (Z.of_nat k) (grid_cols viewport_width) ltac:(lia)).
    pose proof (Z.mod_pos_bound (Z.of_nat k) (grid_cols viewport_width) ltac:(lia)).
    split_and!; [apply Z.div_pos; lia|lia|lia|lia]. }
  split_and!; [done|apply update_grid_layout_cells|done|].
  apply NoDup_alt. intros i j [r c] Hi Hj.
  apply list_lookup_fmap_Some in Hi as ([n1 rc1] & Heq1 & Hi).
  apply list_lookup_fmap_Some in Hj as ([n2 rc2] & Heq2 & Hj).
  simpl in Heq1, Heq2. subst rc1 rc2.
  destruct (Hcell _ _ _ _ Hi) as (_ & _ & _ & Hki).
  destruct (Hcell _ _ _ _ Hj) as (_ & _ & _ & Hkj). lia.
Qed.

Lemma update_grid_layout_spec_witness :
  update_grid_layout 400 sample_items !! 2%nat = Some ("slide10.png", (1, 0)%Z) ∧
  Z.of_nat 2 = (1 * grid_cols 400 + 0)%Z.
Proof.
  assert (update_grid_layout 400 sample_items !! 2%nat
          = Some ("slide10.png", (1, 0)%Z)) as Hk by reflexivity.
  split; [exact Hk|].
  apply (proj1 (proj2 (proj2 (update_grid_layout_spec 400 sample_items)))
           2%nat "slide10.png" 1%Z 0%Z Hk).
Defined.

(** ** More on the watermark task *)

Section WatermarkMore.
Context `{OsPath} `{ImageLib}.

Lemma watermark_fold_length (template : gray_image) (threshold : Q) (invert : bool)
    (files : list string) (st : gset string * list signal) :
  length (foldl (watermark_step template threshold invert) st files).2
  = (length st.2 + length files)%nat.
Proof.
  revert st. induction files as [|f files IH]; intros [X L]; cbn [foldl snd].
  - simpl. lia.
  - rewrite IH.
    destruct (watermark_step_log template threshold invert X L f) as [m ->].
    rewrite length_app. simpl. lia.
Qed.

(** The list a run carries, as a set. *)
Lemma watermark_result (p : watermark_params) (template : gray_image) :
  open_gray (watermark_path p) = Ok template →
  result_of (watermark_check_task p) = Some (elements (watermark_scan template p).1).
Proof.
  intros Htpl. destruct (watermark_task_run p template Htpl) as (sent & _ & ->).
  apply result_of_snoc.
Qed.

Lemma step_excludes_mono (template : gray_image) (t1 t2 : Q) (invert : bool)
    (path : string) :
  (t1 <= t2)%Q →
  (if invert then step_excludes template t2 true path
   else step_excludes template t1 false path) = true →
  (if invert then step_excludes template t1 true path
   else step_excludes template t2 false path) = true.
Proof.
  intros Ht. unfold step_excludes.
  destruct (match_score template path) as [v|e]; [|by destruct invert].
  destruct invert.
  - rewrite !Qle_bool_iff. intros Hv. by apply (Qle_trans _ t2).
  - rewrite !negb_true_iff. intros Hv.
    destruct (Qle_bool t2 v) eqn:H2; [|done].
    apply Qle_bool_iff in H2.
    assert (Qle_bool t1 v = true) as H1; [|congruence].
    apply Qle_bool_iff. by apply (Qle_trans _ t2).
Qed.

End WatermarkMore.

(** X13: every run of the watermark task ends with exactly one
    [processing_done], after log lines only; its list has no name twice
    and only base names of candidates; and when the template was read
    there is one log line per candidate, between a header and a
    summary. *)
Theorem watermark_task_shape `{OsPath} `{ImageLib} (p : watermark_params) :
  ∃ sent excluded,
    watermark_check_task p = sent ++ [processing_done "watermark" excluded] ∧
    Forall is_log sent ∧
    NoDup excluded ∧
    (∀ name, name ∈ excluded → name ∈ basename <$> file_list p) ∧
    (∀ template, open_gray (watermark_path p) = Ok template →
       length sent = (length (file_list p) + 2)%nat).
Proof.
  destruct (open_gray (watermark_path p)) as [template|e] eqn:Htpl.
  - pose proof (watermark_fold_log template (wm_threshold p) (invert_logic p)
                  (file_list p) (∅, []) (Forall_nil_2 _)) as Hlog.
    pose proof (watermark_fold_length template (wm_threshold p) (invert_logic p)
                  (file_list p) (∅, [])) as Hlen.
    pose proof (watermark_scan_excluded p template) as Hex.
    unfold watermark_check_task. rewrite Htpl.
    unfold watermark_scan in *.
    destruct (foldl _ (∅, []) (file_list p)) as [X L]. simpl in *.
    eexists (log_message _ :: L ++ [log_message _]), (elements X).
    split_and!.
    + simpl. by rewrite <- app_assoc.
    + constructor; [done|]. apply Forall_app. split; [done|]. by repeat constructor.
    + apply NoDup_elements.
    + intros name. rewrite elem_of_elements, Hex.
      intros (path & Hin & <- & _). by apply list_elem_of_fmap_2.
    + intros _ _. simpl. rewrite length_app, Hlen. simpl. lia.
  - unfold watermark_check_task. rewrite Htpl.
    exists [log_message (MsgTemplateUnreadable (watermark_path p) e)], [].
    split_and!; [done|by repeat constructor|constructor| |done].
    by intros name ?%elem_of_nil.
Qed.

Lemma watermark_task_shape_witness :
  ∃ sent excluded,
    @watermark_check_task posix_path sample_lib
      (sample_watermark ["/deck/slide1.png"; "/deck/slide2.png"] false)
    = sent ++ [processing_done "watermark" excluded] ∧
    length sent = 4%nat.
Proof.
  destruct (@watermark_task_shape posix_path sample_lib
              (sample_watermark ["/deck/slide1.png"; "/deck/slide2.png"] false))
    as (sent & excluded & Htask & _ & _ & _ & Hlen).
  exists sent, excluded. split; [exact Htask|].
  apply (Hlen "/marks/logo.png"). reflexivity.
Defined.

(** X14: the threshold works one way.  With the same template and
    candidates, raising the threshold can only add names to the result
    when [invert] is off, and can only remove names when it is on. *)
Theorem watermark_threshold_monotone `{OsPath} `{ImageLib}
    (p : watermark_params) (template : gray_image) (t1 t2 : Q) :
  open_gray (watermark_path p) = Ok template →
  (t1 <= t2)%Q →
  ∃ low high,
    result_of (watermark_check_task (with_threshold t1 p)) = Some low ∧
    result_of (watermark_check_task (with_threshold t2 p)) = Some high ∧
    if invert_logic p then high ⊆ low else low ⊆ high.
Proof.
  intros Htpl Ht.
  rewrite (watermark_result (with_threshold t1 p) template Htpl).
  rewrite (watermark_result (with_threshold t2 p) template Htpl).
  eexists _, _. split_and!; [done|done|].
  pose proof (step_excludes_mono template t1 t2 (invert_logic p)) as Hmono.
  destruct (invert_logic p) eqn:Hinv; intros name;
    rewrite !elem_of_elements, !watermark_scan_excluded; simpl; rewrite Hinv;
    intros (path & Hin & Hbase & Hex); exists path; split_and!; try done;
    by apply (Hmono path Ht).
Qed.

Lemma watermark_threshold_monotone_witness :
  ∃ low high,
    result_of (@watermark_check_task posix_path sample_lib
                 (with_threshold (30 # 100)
                    (sample_watermark ["/deck/slide1.png"; "/deck/slide2.png"] false)))
    = Some low ∧
    result_of (@watermark_check_task posix_path sample_lib
                 (with_threshold (95 # 100)
                    (sample_watermark ["/deck/slide1.png"; "/deck/slide2.png"] false)))
    = Some high ∧
    low ⊆ high.
Proof.
  apply (@watermark_threshold_monotone posix_path sample_lib
           (sample_watermark ["/deck/slide1.png"; "/deck/slide2.png"] false)
           "/marks/logo.png" (30 # 100) (95 # 100)).
  - reflexivity.
  - vm_compute. discriminate.
Defined.

(** X15: the result does not depend on the order of the candidates:
    two runs that differ only in the order of [file_list] carry the same
    names, each once; in which order each run lists them is not said. *)
Theorem watermark_order_independent `{OsPath} `{ImageLib}
    (p : watermark_params) (files : list string) :
  Permutation files (file_list p) →
  ∃ l1 l2,
    result_of (watermark_check_task (with_file_list files p)) = Some l1 ∧
    result_of (watermark_check_task p) = Some l2 ∧
    NoDup l1 ∧ NoDup l2 ∧
    (∀ name, name ∈ l1 ↔ name ∈ l2).
Proof.
  intros Hperm.
  destruct (open_gray (watermark_path p)) as [template|e] eqn:Htpl.
  - rewrite (watermark_result (with_file_list files p) template Htpl).
    rewrite (watermark_result p template Htpl).
    eexists _, _. split_and!; [done|done|apply NoDup_elements|apply NoDup_elements|].
    intros name. rewrite !elem_of_elements, !watermark_scan_excluded. simpl.
    by setoid_rewrite Hperm.
  - exists [], []. unfold watermark_check_task. simpl. rewrite Htpl.
    split_and!; [done|done|constructor|constructor|done].
Qed.

Lemma watermark_order_independent_witness :
  ∃ l1 l2,
    result_of (@watermark_check_task posix_path sample_lib
                 (sample_watermark ["/deck/slide2.png"; "/deck/broken.png"] false))
    = Some l1 ∧
    result_of (@watermark_check_task posix_path sample_lib
                 (sample_watermark ["/deck/broken.png"; "/deck/slide2.png"] false))
    = Some l2 ∧
    ("broken.png" ∈ l1 ↔ "broken.png" ∈ l2).
Proof.
  destruct (@watermark_order_independent posix_path sample_lib
              (sample_watermark ["/deck/broken.png"; "/deck/slide2.png"] false)
              ["/deck/slide2.png"; "/deck/broken.png"])
    as (l1 & l2 & H1 & H2 & _ & _ & Hsame).
  - apply perm_swap.
  - exists l1, l2. split_and!; [exact H1|exact H2|apply Hsame].
Defined.

(** ** More on the animation task *)

Section AnimationMore.
Context `{OsPath} `{ImageLib}.

Lemma compare_pair_sound (folder : string) (threshold : Z) (st : dedup_state)
    (prev_file curr_file name : string) :
  cache_sound folder (hash_cache st) →
  name ∈ an_excluded (compare_pair folder threshold st prev_file curr_file) →
  name ∈ an_excluded st ∨
  (name = prev_file ∧ similar folder threshold prev_file curr_file).
Proof.
  intros Hcache. unfold compare_pair.
  destruct (hash_cache st !! prev_file) as [hp|] eqn:Hp; [|auto].
  destruct (open_phash (join folder curr_file)) as [hc|e] eqn:Hc; [|auto].
  destruct (Z.leb_spec (Z.of_nat (hash_sub hp hc)) threshold) as [Hle|Hlt];
    simpl; [|auto].
  intros [->%elem_of_singleton|Hin]%elem_of_union; [|auto].
  right. split; [done|]. exists (hash_sub hp hc). split; [|done].
  unfold hash_distance. by rewrite (Hcache _ _ Hp), Hc.
Qed.

(** Whatever fails, a file is excluded only for being similar to the
    file right after it. *)
Lemma compare_loop_sound (folder : string) (threshold : Z)
    (rest : list string) (prev_file : string) (st : dedup_state) (name : string) :
  cache_sound folder (hash_cache st) →
  name ∈ an_excluded (compare_loop folder threshold prev_file rest st) →
  name ∈ an_excluded st ∨
  ∃ c, adjacent (prev_file :: rest) name c ∧ similar folder threshold name c.
Proof.
  revert prev_file st. induction rest as [|c rest IH]; intros prev st Hcache; simpl.
  - auto.
  - intros Hin. apply IH in Hin as [Hin|(c' & Hadj & Hs)].
    + apply compare_pair_sound in Hin as [Hin|[-> Hs]]; [auto| |done].
      right. exists c. split; [|done]. apply adjacent_cons. by left.
    + right. exists c'. split; [|done]. apply adjacent_cons. by right.
    + by apply compare_pair_cache.
Qed.

(** Every run ends with one [processing_done] that carries the
    excluded set. *)
Lemma animation_task_set (p : animation_params) :
  ∃ sent, Forall is_log sent ∧
    animation_check_task p
    = sent ++ [processing_done "animation" (elements (dedup_set_of p))].
Proof.
  unfold animation_check_task, dedup_set_of.
  destruct (sort_natural (selected_files p)) as [|first [|second rest]].
  - apply animation_finish_shape. by repeat constructor.
  - apply animation_finish_shape. by repeat constructor.
  - destruct (open_phash (join (an_folder p) first)) as [h|e].
    + apply animation_finish_shape. apply Forall_app.
      split; [by repeat constructor|]. by apply compare_loop_log.
    + exists [log_message (MsgAnimationStart (an_threshold p));
              log_message (MsgAnimationCount (length (first :: second :: rest)));
              log_message (MsgCannotProcess first e)].
      split; [by repeat constructor|]. by rewrite elements_empty.
Qed.

Lemma animation_result (p : animation_params) :
  result_of (animation_check_task p) = Some (elements (dedup_set_of p)).
Proof.
  destruct (animation_task_set p) as (sent & _ & ->). apply result_of_snoc.
Qed.

Lemma dedup_set_sound (p : animation_params) (name : string) :
  name ∈ dedup_set_of p →
  ∃ c, adjacent (sort_natural (selected_files p)) name c ∧
       similar (an_folder p) (an_threshold p) name c.
Proof.
  unfold dedup_set_of.
  destruct (sort_natural (selected_files p)) as [|first [|second rest]];
    [by intros ?%not_elem_of_empty..|].
  destruct (open_phash (join (an_folder p) first)) as [h|e] eqn:Hh;
    [|by intros ?%not_elem_of_empty].
  intros Hin. apply compare_loop_sound in Hin as [Hin|Hin]; [|done|].
  - by apply not_elem_of_empty in Hin.
  - intros f h'. simpl. rewrite lookup_singleton_Some. by intros [<- <-].
Qed.

(** The two thresholds walk the list in step: same cache, and whatever
    the lower one excludes the higher one excludes. *)
Lemma compare_loop_mono (folder : string) (d1 d2 : Z)
    (rest : list string) (prev_file : string) (st1 st2 : dedup_state) :
  (d1 ≤ d2)%Z →
  hash_cache st1 = hash_cache st2 →
  an_excluded st1 ⊆ an_excluded st2 →
  an_excluded (compare_loop folder d1 prev_file rest st1)
  ⊆ an_excluded (compare_loop folder d2 prev_file rest st2).
Proof.
  intros Hd. revert prev_file st1 st2.
  induction rest as [|c rest IH]; intros prev st1 st2 Hcache Hsub; simpl; [done|].
  apply IH; unfold compare_pair; rewrite Hcache;
    destruct (hash_cache st2 !! prev) as [hp|]; try done;
    destruct (open_phash (join folder c)) as [hc|e]; try done;
    destruct (Z.leb_spec (Z.of_nat (hash_sub hp hc)) d1);
    destruct (Z.leb_spec (Z.of_nat (hash_sub hp hc)) d2);
    simpl; try done; try lia.
  - by apply union_mono_l.
  - etrans; [exact Hsub|]. apply union_subseteq_r.
Qed.

(** Once the file at hand and all files to come are missing from the
    cache, every lookup raises and nothing more is excluded. *)
Lemma compare_loop_dead (folder : string) (threshold : Z)
    (rest : list string) (prev_file : string) (st : dedup_state) :
  hash_cache st !! prev_file = None →
  (∀ f, f ∈ rest → hash_cache st !! f = None) →
  an_excluded (compare_loop folder threshold prev_file rest st) = an_excluded st.
Proof.
  revert prev_file st. induction rest as [|c rest IH]; intros prev st Hprev Hrest;
    simpl; [done|].
  unfold compare_pair. rewrite Hprev. rewrite IH; [done| |].
  - simpl. apply Hrest, list_elem_of_here.
  - intros f Hf. simpl. by apply Hrest, list_elem_of_further.
Qed.

Lemma compare_pair_dom (folder : string) (threshold : Z) (st : dedup_state)
    (prev_file curr_file f : string) :
  is_Some (hash_cache (compare_pair folder threshold st prev_file curr_file) !! f) →
  is_Some (hash_cache st !! f) ∨ f = curr_file.
Proof.
  unfold compare_pair.
  destruct (hash_cache st !! prev_file) as [hp|]; [|auto].
  destruct (open_phash (join folder curr_file)) as [hc|e]; [|auto].
  destruct (Z.of_nat (hash_sub hp hc) <=? threshold)%Z; simpl;
    rewrite lookup_insert_is_Some; intros [->|[_ ?]]; auto.
Qed.

Lemma compare_loop_dom (folder : string) (threshold : Z)
    (rest : list string) (prev_file : string) (st : dedup_state) (f : string) :
  is_Some (hash_cache (compare_loop folder threshold prev_file rest st) !! f) →
  is_Some (hash_cache st !! f) ∨ f ∈ rest.
Proof.
  revert prev_file st. induction rest as [|c rest IH]; intros prev st; simpl; [auto|].
  intros [[Hf| ->]%compare_pair_dom|Hf]%IH; auto.
  - right. apply list_elem_of_here.
  - right. by apply list_elem_of_further.
Qed.

Lemma compare_loop_app (folder : string) (threshold : Z)
    (l1 l2 : list string) (prev_file : string) (st : dedup_state) :
  compare_loop folder threshold prev_file (l1 ++ l2) st
  = compare_loop folder threshold (default prev_file (last l1)) l2
      (compare_loop folder threshold prev_file l1 st).
Proof.
  revert prev_file st. induction l1 as [|c l1 IH]; intros prev st; simpl; [done|].
  rewrite IH. f_equal. destruct l1 as [|x l1]; [done|].
  change (last (c :: x :: l1)) with (last (x :: l1)).
  destruct (last (x :: l1)) eqn:Hlast; [done|]. by apply last_None in Hlast.
Qed.

Lemma compare_pair_failed (folder : string) (threshold : Z) (st : dedup_state)
    (prev_file curr_file : string) (e : exn) :
  open_phash (join folder curr_file) = Raise e →
  hash_cache (compare_pair folder threshold st prev_file curr_file) = hash_cache st ∧
  an_excluded (compare_pair folder threshold st prev_file curr_file) = an_excluded st.
Proof.
  intros He. unfold compare_pair. rewrite He.
  by destruct (hash_cache st !! prev_file).
Qed.

Lemma Sorted_app_l (l1 l2 : list string) :
  Sorted natural_le (l1 ++ l2) → Sorted natural_le l1.
Proof.
  induction l1 as [|x l1 IH]; simpl; [constructor|].
  intros Hs. apply Sorted_inv in Hs as [Hs Hhd]. constructor; [by apply IH|].
  destruct l1; [constructor|]. simpl in Hhd. apply HdRel_inv in Hhd. by constructor.
Qed.

Lemma dedup_set_of_cons (p : animation_params) (first : string) (rest : list string) :
  sort_natural (selected_files p) = first :: rest → rest ≠ [] →
  dedup_set_of p
  = match open_phash (join (an_folder p) first) with
    | Raise _ => ∅
    | Ok h =>
        an_excluded
          (compare_loop (an_folder p) (an_threshold p) first rest
             {| hash_cache := {[first := h]}; an_excluded := ∅; an_sent := [] |})
    end.
Proof. intros Hsort Hrest. unfold dedup_set_of. rewrite Hsort. by destruct rest. Qed.

(** A file that cannot be hashed, somewhere after the first, cuts the
    pass off: the excluded set is the one of the files before it. *)
Lemma dedup_set_cut (p : animation_params) (l1 l2 : list string) (bad : string)
    (e : exn) :
  selected_files p = l1 ++ bad :: l2 →
  Sorted natural_le (l1 ++ bad :: l2) → NoDup (l1 ++ bad :: l2) → l1 ≠ [] →
  open_phash (join (an_folder p) bad) = Raise e →
  dedup_set_of p = dedup_set_of (with_selected_files l1 p).
Proof.
  intros Hfiles Hsorted Hnd Hl1 Hbad.
  destruct l1 as [|first l1]; [done|]. clear Hl1.
  rewrite (dedup_set_of_cons p first (l1 ++ bad :: l2)); cycle 1.
  { by rewrite Hfiles, (SortFacts.sort_natural_id _ Hsorted). }
  { by destruct l1. }
  assert (sort_natural (first :: l1) = first :: l1) as Hsort1.
  { apply SortFacts.sort_natural_id. by apply (Sorted_app_l _ (bad :: l2)). }
  change (first :: l1 ++ bad :: l2) with (first :: (l1 ++ bad :: l2)) in Hnd.
  apply NoDup_cons in Hnd as [Hfirst Hrest].
  apply NoDup_app in Hrest as (_ & Hdisj & _).
  destruct (open_phash (join (an_folder p) first)) as [h|e'] eqn:Hh.
  - set (st0 := {| hash_cache := {[first := h]}; an_excluded := ∅; an_sent := [] |}).
    rewrite compare_loop_app. simpl.
    set (st1 := compare_loop (an_folder p) (an_threshold p) first l1 st0).
    destruct (compare_pair_failed (an_folder p) (an_threshold p) st1
                (default first (last l1)) bad e Hbad) as [Hc Hx].
    assert (∀ f, f ∈ bad :: l2 → hash_cache st1 !! f = None) as Hnone.
    { intros f Hf. apply eq_None_not_Some. intros Hsome.
      apply compare_loop_dom in Hsome as [Hsome|Hin].
      - simpl in Hsome. apply lookup_singleton_is_Some in Hsome. subst f.
        apply Hfirst. apply elem_of_app. by right.
      - by apply (Hdisj f). }
    rewrite compare_loop_dead.
    + rewrite Hx. unfold dedup_set_of, with_selected_files.
      cbn [selected_files an_folder an_threshold]. rewrite Hsort1.
      destruct l1 as [|x l1]; [done|]. by rewrite Hh.
    + rewrite Hc. apply Hnone, list_elem_of_here.
    + intros f Hf. rewrite Hc. by apply Hnone, list_elem_of_further.
  - unfold dedup_set_of, with_selected_files.
      cbn [selected_files an_folder an_threshold]. rewrite Hsort1.
    destruct l1 as [|x l1]; [done|]. by rewrite Hh.
Qed.

End AnimationMore.

(** X16: whatever fails on the way, the animation task ends with
    exactly one [processing_done] after log lines only; its list has no
    name twice, and a name is in it only if the file was hashed, the
    file right after it in natural order was hashed, and the two
    original hashes are within the threshold.  With fewer than two files
    the list is empty, and the last of distinct files is never in it. *)
Theorem dedup_excludes_only_similar `{OsPath} `{ImageLib} (p : animation_params) :
  ∃ sent excluded,
    animation_check_task p = sent ++ [processing_done "animation" excluded] ∧
    Forall is_log sent ∧
    NoDup excluded ∧
    (∀ name, name ∈ excluded →
       ∃ c, adjacent (sort_natural (selected_files p)) name c ∧
            similar (an_folder p) (an_threshold p) name c) ∧
    ((length (selected_files p) < 2)%nat → excluded = []) ∧
    (NoDup (selected_files p) →
     ∀ x, last (sort_natural (selected_files p)) = Some x → x ∉ excluded).
Proof.
  destruct (animation_task_set p) as (sent & Hlog & Htask).
  assert (∀ name, name ∈ elements (dedup_set_of p) →
            ∃ c, adjacent (sort_natural (selected_files p)) name c ∧
                 similar (an_folder p) (an_threshold p) name c) as Hsound.
  { intros name Hin. apply dedup_set_sound. by apply elem_of_elements. }
  exists sent, (elements (dedup_set_of p)).
  split_and!; [done|done|apply NoDup_elements|done| |].
  - intros Hlen. rewrite <- (SortFacts.sort_natural_length (selected_files p)) in Hlen.
    unfold dedup_set_of.
    destruct (sort_natural (selected_files p)) as [|first [|second rest]];
      simpl in Hlen; [apply elements_empty|apply elements_empty|lia].
  - intros Hnd x Hx Hin. apply Hsound in Hin as (c & Hadj & _).
    assert (NoDup (sort_natural (selected_files p))) as Hnd'.
    { by rewrite (SortFacts.sort_natural_perm _). }
    rewrite last_lookup in Hx.
    apply (adjacent_NoDup_last _ _ x c Hnd' Hx); [|done].
    apply lookup_ge_None_2. destruct (sort_natural (selected_files p)); simpl in *; lia.
Qed.

Lemma dedup_excludes_only_similar_witness :
  ∃ sent excluded,
    @animation_check_task posix_path sample_lib
      (sample_animation ["slide2.png"; "slide1.png"; "slide3.png"])
    = sent ++ [processing_done "animation" excluded] ∧
    ("slide3.png" ∉ excluded).
Proof.
  destruct (@dedup_excludes_only_similar posix_path sample_lib
              (sample_animation ["slide2.png"; "slide1.png"; "slide3.png"]))
    as (sent & excluded & Htask & _ & _ & _ & _ & Hlast).
  exists sent, excluded. split; [exact Htask|].
  apply Hlast.
  - apply (bool_decide_eq_true_1 (NoDup _)). vm_compute. reflexivity.
  - reflexivity.
Defined.

(** X17: a higher threshold never excludes less: with the same folder
    and files, every name in the result for a threshold is in the result
    for any higher threshold, whatever files fail. *)
Theorem dedup_threshold_monotone `{OsPath} `{ImageLib}
    (p : animation_params) (d1 d2 : Z) :
  (d1 ≤ d2)%Z →
  ∃ low high,
    result_of (animation_check_task (with_an_threshold d1 p)) = Some low ∧
    result_of (animation_check_task (with_an_threshold d2 p)) = Some high ∧
    low ⊆ high.
Proof.
  intros Hd. rewrite !animation_result. eexists _, _. split_and!; [done|done|].
  intros name. rewrite !elem_of_elements. unfold dedup_set_of. simpl.
  destruct (sort_natural (selected_files p)) as [|first [|second rest]]; [done|done|].
  destruct (open_phash (join (an_folder p) first)) as [h|e]; [|done].
  by apply compare_loop_mono.
Qed.

Lemma dedup_threshold_monotone_witness :
  ∃ low high,
    result_of (@animation_check_task posix_path sample_lib
                 (with_an_threshold 5
                    (sample_animation ["slide1.png"; "slide2.png"; "slide10.png"])))
    = Some low ∧
    result_of (@animation_check_task posix_path sample_lib
                 (with_an_threshold 25
                    (sample_animation ["slide1.png"; "slide2.png"; "slide10.png"])))
    = Some high ∧
    low ⊆ high.
Proof.
  apply (@dedup_threshold_monotone posix_path sample_lib
           (sample_animation ["slide1.png"; "slide2.png"; "slide10.png"]) 5 25).
  lia.
Defined.

(** X18: a file that cannot be hashed hides every file after it.  For
    distinct names in natural order, if a file other than the first
    cannot be hashed, the run carries the same list as a run on the
    files before it alone: no file from the failed one on is compared
    with anything, however similar two of them are. *)
Theorem dedup_failure_cuts_off `{OsPath} `{ImageLib}
    (p : animation_params) (l1 l2 : list string) (bad : string) (e : exn) :
  selected_files p = l1 ++ bad :: l2 →
  Sorted natural_le (l1 ++ bad :: l2) → NoDup (l1 ++ bad :: l2) → l1 ≠ [] →
  open_phash (join (an_folder p) bad) = Raise e →
  result_of (animation_check_task p)
  = result_of (animation_check_task (with_selected_files l1 p)).
Proof.
  intros Hfiles Hsorted Hnd Hl1 Hbad. rewrite !animation_result.
  by rewrite (dedup_set_cut p l1 l2 bad e).
Qed.

Lemma dedup_failure_cuts_off_witness :
  result_of (@animation_check_task posix_path sample_lib
               (sample_animation
                  ["slide1.png"; "slide2.png"; "slide3.png"; "slide4.png"; "slide5.png"]))
  = result_of (@animation_check_task posix_path sample_lib
                 (sample_animation ["slide1.png"; "slide2.png"])).
Proof.
  apply (@dedup_failure_cuts_off posix_path sample_lib
           (sample_animation
              ["slide1.png"; "slide2.png"; "slide3.png"; "slide4.png"; "slide5.png"])
           ["slide1.png"; "slide2.png"] ["slide4.png"; "slide5.png"] "slide3.png"
           (Exception "cannot identify image file")).
  - reflexivity.
  - repeat constructor; reflexivity.
  - apply (bool_decide_eq_true_1 (NoDup _)). vm_compute. reflexivity.
  - discriminate.
  - reflexivity.
Defined.

(** ** More on the PDF task *)

Section PdfMore.
Context `{OsPath} `{ImageLib}.

Lemma decoded_length (folder : string) (names : list string) :
  (length (decoded folder names) ≤ length names)%nat.
Proof.
  unfold decoded. induction names as [|f names IH]; simpl; [done|].
  unfold omap in IH. destruct (open_rgb (join folder f)); simpl; lia.
Qed.

(** The four ways the task can end. *)
Lemma create_pdf_task_cases (p : pdf_params) (fs : gmap string pdf_document) :
  (final_list p = [] ∧
   create_pdf_task p fs
   = ([log_message MsgNothingToInclude; pdf_done "fail" NoImagesText], fs)) ∨
  (∃ first others sent e,
     final_list p = first :: others ∧ Forall is_log sent ∧
     create_pdf_task p fs = (sent ++ [pdf_done "fail" (ExnText e)], fs) ∧
     (open_rgb (join (pdf_folder p) first) = Raise e ∨
      ∃ cover, open_rgb (join (pdf_folder p) first) = Ok cover ∧
               save_error (output_path p) (cover :: decoded (pdf_folder p) others)
               = Some e)) ∨
  (∃ first others sent cover,
     final_list p = first :: others ∧ Forall is_log sent ∧
     open_rgb (join (pdf_folder p) first) = Ok cover ∧
     save_error (output_path p) (cover :: decoded (pdf_folder p) others) = None ∧
     create_pdf_task p fs
     = (sent ++ [pdf_done "success" (OutputPath (output_path p))],
        <[output_path p :=
            {| pages := cover :: decoded (pdf_folder p) others;
               resolution := 100 |}]> fs)).
Proof.
  unfold create_pdf_task.
  destruct (final_list p) as [|first others] eqn:Hlist; [by left|]. right.
  destruct (open_rgb (join (pdf_folder p) first)) as [cover|e] eqn:Hcover.
  - edestruct (add_page_fold (pdf_folder p) others [])
      as (sent & -> & Hlog & _ & _); [by repeat constructor|].
    simpl.
    destruct (save_error (output_path p) (cover :: decoded (pdf_folder p) others))
      as [e|] eqn:Hsave.
    + left. exists first, others, (sent ++ [log_message (MsgPdfError e)]), e.
      rewrite <- app_assoc. split_and!; [done| |done|eauto].
      apply Forall_app. split; [done|]. by repeat constructor.
    + right. exists first, others, (sent ++ [log_message MsgPdfCreated]), cover.
      rewrite <- app_assoc. split_and!; try done.
      apply Forall_app. split; [done|]. by repeat constructor.
  - left.
    exists first, others,
      [log_message (MsgPdfStart (length (first :: others)));
       log_message (MsgAddCover first);
       log_message (MsgPdfError e)], e.
    split_and!; [done|by repeat constructor|done|by left].
Qed.

Lemma is_log_not_done (sent : list signal) (status : string) (detail : pdf_detail) :
  Forall is_log sent → pdf_done status detail ∉ sent.
Proof.
  intros Hlog Hin. rewrite Forall_forall in Hlog. by apply Hlog in Hin.
Qed.

End PdfMore.

(** X19: every run of the PDF task ends with exactly one [pdf_done],
    after log lines only.  It reports success exactly when the list is
    not empty, the first file opens and writing does not raise; then it
    names the output path, and what it wrote there replaces whatever was
    there before, leaves every other path alone, has resolution 100 and
    at least one and at most as many pages as there are names.  The
    fixed "no images" text is sent exactly when the list is empty. *)
Theorem create_pdf_task_outcome `{OsPath} `{ImageLib}
    (p : pdf_params) (fs : gmap string pdf_document) :
  ∃ sent status detail fs',
    create_pdf_task p fs = (sent ++ [pdf_done status detail], fs') ∧
    Forall is_log sent ∧
    (status = "success" ∨ status = "fail") ∧
    (status = "success" ↔
       ∃ first others cover,
         final_list p = first :: others ∧
         open_rgb (join (pdf_folder p) first) = Ok cover ∧
         save_error (output_path p) (cover :: decoded (pdf_folder p) others) = None) ∧
    (status = "success" →
       detail = OutputPath (output_path p) ∧
       (∀ path, path ≠ output_path p → fs' !! path = fs !! path) ∧
       ∃ doc, fs' !! output_path p = Some doc ∧ resolution doc = 100%Z ∧
              (1 ≤ length (pages doc) ≤ length (final_list p))%nat) ∧
    (detail = NoImagesText ↔ final_list p = []).
Proof.
  destruct (create_pdf_task_cases p fs)
    as [[Hlist ->]|[(first & others & sent & e & Hlist & Hlog & -> & Hwhy)
                   |(first & others & sent & cover & Hlist & Hlog & Hcover & Hsave & ->)]].
  - exists [log_message MsgNothingToInclude], "fail", NoImagesText, fs.
    split_and!; [done|by repeat constructor|by right| |done|done].
    split; [done|]. intros (first & others & cover & Hl & _). congruence.
  - exists sent, "fail", (ExnText e), fs.
    split_and!; [done|done|by right| |done|].
    + split; [done|]. intros (f & o & c & Hl & Hc & Hs).
      rewrite Hlist in Hl. injection Hl as <- <-.
      destruct Hwhy as [Hr|(c' & Hc' & Hs')]; congruence.
    + split; [done|]. intros Hl. congruence.
  - eexists sent, "success", _, _. split_and!; [done|done|by left| | |].
    + split; [|done]. intros _. by exists first, others, cover.
    + intros _. split_and!; [done| |].
      * intros path Hpath. by rewrite lookup_insert_ne.
      * eexists. split; [apply lookup_insert_eq|]. rewrite Hlist. simpl.
        pose proof (decoded_length (pdf_folder p) others). split; [done|lia].
    + split; [done|]. intros Hl. congruence.
Qed.

Lemma create_pdf_task_outcome_witness :
  ∃ sent detail fs',
    @create_pdf_task posix_path sample_lib
      (sample_pdf ["slide1.png"; "broken.png"] "/deck/deck.pdf") ∅
    = (sent ++ [pdf_done "success" detail], fs') ∧
    detail = OutputPath "/deck/deck.pdf".
Proof.
  destruct (@create_pdf_task_outcome posix_path sample_lib
              (sample_pdf ["slide1.png"; "broken.png"] "/deck/deck.pdf") ∅)
    as (sent & status & detail & fs' & Htask & _ & _ & Hiff & Hok & _).
  assert (status = "success") as ->.
  { apply Hiff. by exists "slide1.png", ["broken.png"], "/deck/slide1.png". }
  exists sent, detail, fs'. split; [exact Htask|]. by apply Hok.
Defined.

(** ** Starting the tasks *)

Section LaunchFacts.
Context `{OsPath}.

Lemma selected_names (win : MainWindow) (items : list (string * ThumbnailWidget))
    (name : string) :
  dict_items win items →
  name ∈ get_selected_files items false ↔
  ∃ w, thumbnail_widgets win !! name = Some w ∧ is_selected w = true.
Proof.
  intros Hitems. rewrite get_selected_files_elem.
  by setoid_rewrite (dict_items_lookup win items name _ Hitems).
Qed.

Lemma get_selected_files_sorted_again (items : list (string * ThumbnailWidget))
    (filtered : bool) :
  sort_natural (get_selected_files items filtered) = get_selected_files items filtered.
Proof. apply SortFacts.sort_natural_id, SortFacts.sort_natural_sorted. Qed.

End LaunchFacts.

(** X20: the PDF button starts the task exactly when there is a folder,
    the output line holds something else than its initial label and at
    least one thumbnail is selected; otherwise it refuses, for the first
    of these reasons that applies.  The list it passes is the selected
    names, each once, in natural order, and so the task it starts never
    answers with the "no images" failure. *)
Theorem run_create_pdf_started `{OsPath} `{ImageLib}
    (win : MainWindow) (items : list (string * ThumbnailWidget)) (out : string) :
  dict_items win items →
  (∀ p, run_create_pdf win items out = Started p ↔
        image_folder win ≠ "" ∧ out ≠ "未设置" ∧
        get_selected_files items false ≠ [] ∧
        p = {| pdf_folder := image_folder win;
               final_list := get_selected_files items false;
               output_path := out |}) ∧
  (image_folder win = "" → run_create_pdf win items out = Refused NoFolder) ∧
  (image_folder win ≠ "" → out = "未设置" →
   run_create_pdf win items out = Refused NoOutputPath) ∧
  (image_folder win ≠ "" → out ≠ "未设置" → get_selected_files items false = [] →
   run_create_pdf win items out = Refused NothingSelected) ∧
  (∀ p, run_create_pdf win items out = Started p →
        final_list p ≠ [] ∧ Sorted natural_le (final_list p) ∧
        NoDup (final_list p) ∧
        (∀ name, name ∈ final_list p ↔
                 ∃ w, thumbnail_widgets win !! name = Some w ∧ is_selected w = true) ∧
        (∀ fs, pdf_done "fail" NoImagesText ∉ (create_pdf_task p fs).1)).
Proof.
  intros Hitems. unfold run_create_pdf.
  destruct (String.eqb_spec (image_folder win) "") as [Hfolder|Hfolder].
  { split_and!; try done. intros p. split; [done|]. by intros (Hne & _). }
  destruct (String.eqb_spec out "未设置") as [Hout|Hout].
  { split_and!; try done. intros p. split; [done|]. by intros (_ & Hne & _). }
  destruct (get_selected_files items false) as [|x l] eqn:Hsel.
  { split_and!; try done. intros p. split; [done|]. by intros (_ & _ & Hne & _). }
  rewrite <- Hsel. split_and!; try done.
  - intros p. split.
    + intros [= <-]. split_and!; try done. by rewrite Hsel.
    + by intros (_ & _ & _ & ->).
  - by rewrite Hsel.
  - intros p [= <-]. simpl. split_and!.
    + by rewrite Hsel.
    + apply SortFacts.sort_natural_sorted.
    + apply get_selected_files_NoDup. by destruct Hitems.
    + intros name. by apply selected_names.
    + intros fs.
      destruct (create_pdf_task_cases
                  {| pdf_folder := image_folder win;
                     final_list := get_selected_files items false;
                     output_path := out |} fs)
        as [[Hlist _]|[(first & others & sent & e & _ & Hlog & -> & _)
                      |(first & others & sent & cover & _ & Hlog & _ & _ & ->)]].
      * simpl in Hlist. congruence.
      * simpl. rewrite elem_of_app, list_elem_of_singleton.
        intros [Hin|[=]]. by apply (is_log_not_done sent) in Hin.
      * simpl. rewrite elem_of_app, list_elem_of_singleton.
        intros [Hin|[=]]. by apply (is_log_not_done sent) in Hin.
Qed.

(** X21: the animation button starts the task exactly when there is a
    folder and at least two thumbnails are selected; otherwise it
    refuses, for the first of these reasons that applies.  The list it
    passes is the selected names, each once, in natural order, so the
    sort the task does first changes nothing. *)
Theorem run_animation_check_started `{OsPath}
    (win : MainWindow) (items : list (string * ThumbnailWidget))
    (slider_at : Z) :
  dict_items win items →
  (∀ p, run_animation_check win items slider_at = Started p ↔
        image_folder win ≠ "" ∧
        (2 ≤ length (get_selected_files items false))%nat ∧
        p = {| an_folder := image_folder win;
               an_threshold := slider_at;
               selected_files := get_selected_files items false |}) ∧
  (image_folder win = "" →
   run_animation_check win items slider_at = Refused NoFolder) ∧
  (image_folder win ≠ "" →
   (length (get_selected_files items false) < 2)%nat →
   run_animation_check win items slider_at = Refused TooFewSelected) ∧
  (∀ p, run_animation_check win items slider_at = Started p →
        Sorted natural_le (selected_files p) ∧ NoDup (selected_files p) ∧
        sort_natural (selected_files p) = selected_files p ∧
        (∀ name, name ∈ selected_files p ↔
                 ∃ w, thumbnail_widgets win !! name = Some w ∧ is_selected w = true)).
Proof.
  intros Hitems. unfold run_animation_check.
  destruct (String.eqb_spec (image_folder win) "") as [Hfolder|Hfolder].
  { split_and!; try done. intros p. split; [done|]. by intros (Hne & _). }
  destruct (Nat.ltb_spec (length (get_selected_files items false)) 2) as [Hlen|Hlen].
  { split_and!; try done. intros p. split; [done|]. intros (_ & Hge & _). lia. }
  split_and!; try done.
  - intros p. split.
    + by intros [= <-].
    + by intros (_ & _ & ->).
  - intros _ Hlt. lia.
  - intros p [= <-]. simpl. split_and!.
    + apply SortFacts.sort_natural_sorted.
    + apply get_selected_files_NoDup. by destruct Hitems.
    + apply get_selected_files_sorted_again.
    + intros name. by apply selected_names.
Qed.

(** X22: the watermark button, with "all images" unticked, passes the
    selected names joined to the folder, and refuses when nothing is
    selected.  Where [basename] undoes [join] on those names, the
    candidates have distinct base names and the task can only return
    names of selected thumbnails. *)
Theorem run_watermark_check_started `{OsPath} `{ImageLib}
    (win : MainWindow) (items : list (string * ThumbnailWidget))
    (wt_path : string) (wt_path_exists : bool) (slider_wt : Z)
    (cb_wt_invert : bool) (p : watermark_params) :
  dict_items win items →
  (∀ name, name ∈ get_selected_files items false →
           basename (join (image_folder win) name) = name) →
  run_watermark_check win items wt_path wt_path_exists slider_wt false cb_wt_invert
  = Started p →
  wt_path_exists = true ∧
  watermark_path p = wt_path ∧ wm_threshold p = slider_wt # 100 ∧
  invert_logic p = cb_wt_invert ∧
  file_list p = map (join (image_folder win)) (get_selected_files items false) ∧
  file_list p ≠ [] ∧
  basename <$> file_list p = get_selected_files items false ∧
  NoDup (basename <$> file_list p) ∧
  (∀ excluded name,
     result_of (watermark_check_task p) = Some excluded → name ∈ excluded →
     ∃ w, thumbnail_widgets win !! name = Some w ∧ is_selected w = true).
Proof.
  intros Hitems Hbase. unfold run_watermark_check.
  destruct (String.eqb (image_folder win) ""); [done|].
  destruct wt_path_exists; [|done]. simpl.
  destruct (map (join (image_folder win)) (get_selected_files items false))
    as [|x l] eqn:Hmap; [done|].
  intros [= <-]. cbn [watermark_path wm_threshold invert_logic file_list wm_folder].
  rewrite <- Hmap.
  assert (basename <$> map (join (image_folder win)) (get_selected_files items false)
          = get_selected_files items false) as Hnames.
  { clear Hmap. induction (get_selected_files items false) as [|n ns IH]; [done|].
    simpl. rewrite Hbase by apply list_elem_of_here. f_equal.
    apply IH. intros name Hin. by apply Hbase, list_elem_of_further. }
  split_and!; [done|done|done|done|done|by rewrite Hmap|done| |].
  - rewrite Hnames. apply get_selected_files_NoDup. by destruct Hitems.
  - intros excluded name Hres Hin.
    apply (selected_names win items name Hitems). rewrite <- Hnames.
    set (q := {| wm_folder := image_folder win; watermark_path := wt_path;
                 wm_threshold := slider_wt # 100;
                 file_list := map (join (image_folder win))
                                (get_selected_files items false);
                 invert_logic := cb_wt_invert |}) in *.
    destruct (open_gray (watermark_path q)) as [template|e] eqn:Htpl.
    + rewrite (watermark_result q template Htpl) in Hres. injection Hres as <-.
      apply elem_of_elements, watermark_scan_excluded in Hin
        as (path & Hpath & <- & _).
      by apply list_elem_of_fmap_2.
    + unfold watermark_check_task in Hres. rewrite Htpl in Hres.
      injection Hres as <-. by apply elem_of_nil in Hin.
Qed.

Lemma run_create_pdf_started_witness :
  @run_create_pdf deck_window deck_items "/deck/deck.pdf"
  = Started {| pdf_folder := "/deck";
               final_list := ["slide1.png"; "slide2.png"; "slide10.png"];
               output_path := "/deck/deck.pdf" |} ∧
  @run_create_pdf deck_window deck_items "未设置" = Refused NoOutputPath.
Proof.
  assert (dict_items deck_window deck_items) as Hitems.
  { apply (bool_decide_eq_true_1 (dict_items deck_window deck_items)).
    vm_compute. reflexivity. }
  split.
  - apply (proj1 (@run_create_pdf_started posix_path sample_lib deck_window
                    deck_items "/deck/deck.pdf" Hitems)).
    split_and!; [discriminate|discriminate|discriminate|reflexivity].
  - apply (proj1 (proj2 (proj2 (@run_create_pdf_started posix_path sample_lib
                                  deck_window deck_items "未设置" Hitems)))).
    + discriminate.
    + reflexivity.
Defined.

Lemma run_animation_check_started_witness :
  @run_animation_check deck_window deck_items 15
  = Started {| an_folder := "/deck"; an_threshold := 15;
               selected_files := ["slide1.png"; "slide2.png"; "slide10.png"] |} ∧
  @run_animation_check
    {| image_folder := ""; thumbnail_widgets := thumbnail_widgets deck_window;
       all_files_paths := [] |} deck_items 15
  = Refused NoFolder.
Proof.
  split.
  - apply (proj1 (@run_animation_check_started posix_path deck_window deck_items 15
                    ltac:(apply (bool_decide_eq_true_1
                                   (dict_items deck_window deck_items));
                          vm_compute; reflexivity))).
    split_and!; [discriminate|simpl; lia|reflexivity].
  - apply (proj1 (proj2 (@run_animation_check_started posix_path
                           {| image_folder := "";
                              thumbnail_widgets := thumbnail_widgets deck_window;
                              all_files_paths := [] |} deck_items 15
                           ltac:(apply (bool_decide_eq_true_1 (dict_items _ deck_items));
                                 vm_compute; reflexivity)))).
    reflexivity.
Defined.

Lemma run_watermark_check_started_witness :
  NoDup (posix_basename <$> ["/deck/slide1.png"; "/deck/slide2.png"; "/deck/slide10.png"]).
Proof.
  destruct (@run_watermark_check_started posix_path sample_lib deck_window deck_items
              "/marks/logo.png" true 80 false
              {| wm_folder := "/deck"; watermark_path := "/marks/logo.png";
                 wm_threshold := 80 # 100;
                 file_list := ["/deck/slide1.png"; "/deck/slide2.png"; "/deck/slide10.png"];
                 invert_logic := false |})
    as (_ & _ & _ & _ & _ & _ & _ & Hnd & _).
  - apply (bool_decide_eq_true_1 (dict_items deck_window deck_items)).
    vm_compute. reflexivity.
  - intros name Hin.
    change (get_selected_files deck_items false)
      with ["slide1.png"; "slide2.png"; "slide10.png"] in Hin.
    apply elem_of_cons in Hin as [->|Hin]; [reflexivity|].
    apply elem_of_cons in Hin as [->|Hin]; [reflexivity|].
    apply elem_of_cons in Hin as [->|Hin]; [reflexivity|].
    by apply elem_of_nil in Hin.
  - reflexivity.
  - exact Hnd.
Defined.

(** ** Loading a folder *)

Section LoadingFacts.
Context `{OsPath} `{FolderLib} `{PyText}.

Lemma endswith_spec (s suffix : string) :
  endswith s suffix = true ↔ ∃ pre, s = String.append pre suffix.
Proof.
  split.
  - induction s as [|c s IH]; cbn [endswith].
    + rewrite orb_false_r. intros ->%String.eqb_eq. by exists "".
    + intros [->%String.eqb_eq|Htail]%orb_true_iff; [by exists ""|].
      destruct (IH Htail) as [pre ->]. by exists (String c pre).
  - intros [pre ->]. induction pre as [|c pre IH].
    + change (endswith suffix suffix = true).
      destruct suffix; cbn [endswith]; by rewrite String.eqb_refl.
    + change (endswith (String c (String.append pre suffix)) suffix = true).
      cbn [endswith]. rewrite IH. apply orb_true_r.
Qed.

Lemma load_thumbnails_running (isRunning : nat → bool) (k : nat)
    (folder : string) (all_files : list string) :
  (∀ i, isRunning i = true) →
  load_thumbnails isRunning k folder all_files = load_thumbnail folder <$> all_files.
Proof.
  intros Hrun. revert k. induction all_files as [|f fs IH]; intros k; simpl; [done|].
  by rewrite Hrun, IH.
Qed.

Lemma load_thumbnails_prefix (isRunning : nat → bool) (k : nat)
    (folder : string) (all_files : list string) :
  load_thumbnails isRunning k folder all_files
  `prefix_of` load_thumbnail folder <$> all_files.
Proof.
  revert k. induction all_files as [|f fs IH]; intros k; simpl; [done|].
  destruct (isRunning k); simpl; [|apply prefix_nil].
  apply prefix_cons, IH.
Qed.

Lemma basename_join_names (folder : string) (names : list string) :
  (∀ f, f ∈ names → basename (join folder f) = f) →
  basename <$> (join folder <$> names) = names.
Proof.
  induction names as [|n ns IH]; intros Hbase; [done|].
  rewrite !fmap_cons, Hbase by apply list_elem_of_here. f_equal.
  apply IH. intros f Hf. by apply Hbase, list_elem_of_further.
Qed.

Lemma is_plain_key (s : string) :
  is_plain s = true → natural_sort_key_of s = Ok (natural_sort_key s).
Proof. unfold natural_sort_key_of. by intros ->. Qed.

Lemma sort_keys_names (l : list string) (keyed : list (list pyval * string)) :
  sort_keys l = Ok keyed → keyed.*2 = l.
Proof.
  revert keyed. induction l as [|f l IH]; intros keyed; cbn [sort_keys].
  - by intros [= <-].
  - destruct (natural_sort_key_of f) as [k|e]; [|done].
    destruct (sort_keys l) as [keyed'|e]; [|done].
    intros [= <-]. rewrite fmap_cons. simpl. by rewrite (IH keyed').
Qed.

Lemma sort_keys_plain (l : list string) :
  Forall (λ f, is_plain f = true) l →
  sort_keys l = Ok ((λ f, (natural_sort_key f, f)) <$> l).
Proof.
  induction 1 as [|f l Hf Hl IH]; cbn [sort_keys]; [done|].
  by rewrite (is_plain_key f Hf), IH.
Qed.

(** The exception of the sort is the one [natural_sort_key] raises on
    the first name that has no key. *)
Lemma sort_keys_raise (l : list string) (e : exn) :
  sort_keys l = Raise e →
  ∃ l1 f l2, l = l1 ++ f :: l2 ∧ natural_sort_key_of f = Raise e ∧
             ∀ g, g ∈ l1 → ∃ k, natural_sort_key_of g = Ok k.
Proof.
  induction l as [|f l IH]; cbn [sort_keys]; [done|].
  destruct (natural_sort_key_of f) as [k|e'] eqn:Hf.
  - destruct (sort_keys l) as [keyed|e']; [done|].
    intros [= ->]. destruct (IH eq_refl) as (l1 & g & l2 & -> & Hg & Hl1).
    exists (f :: l1), g, l2. split_and!; [done|done|].
    intros g' [->|Hg']%elem_of_cons; eauto.
  - intros [= ->]. exists [], f, l. split_and!; [done|done|].
    by intros g ?%elem_of_nil.
Qed.

Lemma insert_keyed_perm (x : list pyval * string) (l : list (list pyval * string)) :
  insert_keyed x l ≡ₚ x :: l.
Proof.
  induction l as [|y l IH]; simpl; [done|].
  destruct (keyed_ltb y x); [|done].
  rewrite IH. apply Permutation_swap.
Qed.

Lemma sort_keyed_perm (l : list (list pyval * string)) :
  fold_right insert_keyed [] l ≡ₚ l.
Proof.
  induction l as [|x l IH]; simpl; [done|].
  by rewrite insert_keyed_perm, IH.
Qed.

(** On plain names the sort is [sort_natural]. *)
Lemma insert_keyed_natural (x : string) (l : list string) :
  insert_keyed (natural_sort_key x, x) ((λ f, (natural_sort_key f, f)) <$> l)
  = (λ f, (natural_sort_key f, f)) <$> insert_natural x l.
Proof.
  induction l as [|y l IH]; [done|].
  rewrite fmap_cons. cbn [insert_keyed insert_natural].
  change (keyed_ltb (natural_sort_key y, y) (natural_sort_key x, x))
    with (natural_ltb y x).
  destruct (natural_ltb y x); [|done].
  by rewrite IH, fmap_cons.
Qed.

Lemma sort_keyed_natural (l : list string) :
  fold_right insert_keyed [] ((λ f, (natural_sort_key f, f)) <$> l)
  = (λ f, (natural_sort_key f, f)) <$> sort_natural l.
Proof.
  induction l as [|x l IH]; [done|].
  rewrite fmap_cons. cbn [fold_right]. rewrite IH.
  apply insert_keyed_natural.
Qed.

Lemma sort_by_key_plain (l : list string) :
  Forall (λ f, is_plain f = true) l → sort_by_key l = Ok (sort_natural l).
Proof.
  intros Hl. unfold sort_by_key. rewrite (sort_keys_plain l Hl), sort_keyed_natural.
  f_equal. rewrite <- list_fmap_compose. apply list_fmap_id.
Qed.

Lemma natural_sort_key_of_shape (s : string) (k : list pyval) :
  natural_sort_key_of s = Ok k → key_shape k.
Proof.
  unfold natural_sort_key_of. destruct (is_plain s).
  - intros [= <-]. apply OrderFacts.natural_sort_key_shape.
  - apply key_otherwise_shape.
Qed.

Lemma sort_keys_keyed (l : list string) (keyed : list (list pyval * string)) :
  sort_keys l = Ok keyed →
  Forall (λ a, natural_sort_key_of a.2 = Ok a.1) keyed.
Proof.
  revert keyed. induction l as [|f l IH]; intros keyed; cbn [sort_keys].
  - intros [= <-]. constructor.
  - destruct (natural_sort_key_of f) as [k|e] eqn:Hf; [|done].
    destruct (sort_keys l) as [keyed'|e]; [|done].
    intros [= <-]. constructor; [done|]. by apply IH.
Qed.

(** No comparison of the sort raises [TypeError]. *)
Lemma keyed_ltb_defined (a b : list pyval * string) :
  key_shape a.1 → key_shape b.1 → pylist_lt a.1 b.1 = Some (keyed_ltb a b).
Proof.
  intros Ha Hb. unfold keyed_ltb.
  by destruct (CompareFacts.key_shape_lt_defined _ _ Ha Hb) as [r ->].
Qed.

Lemma keyed_ltb_asym (a b : list pyval * string) :
  key_shape a.1 → key_shape b.1 → keyed_ltb a b = true → keyed_ltb b a = false.
Proof.
  intros Ha Hb Hab.
  pose proof (CompareFacts.pylist_lt_compare _ _ _ (keyed_ltb_defined a b Ha Hb)) as Hc1.
  pose proof (CompareFacts.pylist_lt_compare _ _ _ (keyed_ltb_defined b a Hb Ha)) as Hc2.
  rewrite Hc2, (CompareFacts.pylist_compare_antisym b.1 a.1).
  rewrite Hab in Hc1. by destruct (pylist_compare a.1 b.1).
Qed.

Lemma insert_keyed_hd (x y : list pyval * string) (l : list (list pyval * string)) :
  keyed_le y x → HdRel keyed_le y l → HdRel keyed_le y (insert_keyed x l).
Proof.
  intros Hyx Hl. destruct l as [|z l]; simpl; [by constructor|].
  destruct (keyed_ltb z x); constructor; [|done].
  by inversion Hl.
Qed.

Lemma insert_keyed_sorted (x : list pyval * string) (l : list (list pyval * string)) :
  key_shape x.1 → Forall (λ a, key_shape a.1) l →
  Sorted keyed_le l → Sorted keyed_le (insert_keyed x l).
Proof.
  intros Hx Hl Hs. induction Hs as [|y l Hs IH Hhd]; simpl; [by repeat constructor|].
  apply Forall_cons in Hl as [Hy Hl].
  destruct (keyed_ltb y x) eqn:Hyx.
  - constructor; [by apply IH|]. apply insert_keyed_hd; [|done].
    unfold keyed_le. rewrite (keyed_ltb_defined x y Hx Hy).
    by rewrite (keyed_ltb_asym y x Hy Hx Hyx).
  - constructor; [by constructor|]. constructor.
    unfold keyed_le. by rewrite (keyed_ltb_defined y x Hy Hx), Hyx.
Qed.

Lemma sort_keyed_sorted (l : list (list pyval * string)) :
  Forall (λ a, key_shape a.1) l → Sorted keyed_le (fold_right insert_keyed [] l).
Proof.
  induction 1 as [|x l Hx Hl IH]; simpl; [constructor|].
  apply insert_keyed_sorted; [done| |done].
  by rewrite sort_keyed_perm.
Qed.

(** The sorted names with their keys. *)
Lemma sort_by_key_keyed (l names : list string) :
  sort_by_key l = Ok names →
  ∃ keyed, keyed.*2 = names ∧
           Forall (λ a, natural_sort_key_of a.2 = Ok a.1) keyed ∧
           Sorted keyed_le keyed.
Proof.
  unfold sort_by_key. destruct (sort_keys l) as [keyed|e] eqn:Hk; [|done].
  intros [= <-]. exists (fold_right insert_keyed [] keyed).
  pose proof (sort_keys_keyed l keyed Hk) as Hkeys.
  split_and!; [done| |].
  - by rewrite sort_keyed_perm.
  - apply sort_keyed_sorted. eapply Forall_impl; [exact Hkeys|].
    intros a Ha. by apply natural_sort_key_of_shape with a.2.
Qed.

Lemma sort_by_key_perm (l names : list string) :
  sort_by_key l = Ok names → names ≡ₚ l.
Proof.
  unfold sort_by_key. destruct (sort_keys l) as [keyed|e] eqn:Hk; [|done].
  intros [= <-]. rewrite sort_keyed_perm. by rewrite (sort_keys_names l keyed Hk).
Qed.

Lemma sort_by_key_raise (l : list string) (e : exn) :
  sort_by_key l = Raise e →
  ∃ l1 f l2, l = l1 ++ f :: l2 ∧ natural_sort_key_of f = Raise e ∧
             is_plain f = false ∧
             ∀ g, g ∈ l1 → ∃ k, natural_sort_key_of g = Ok k.
Proof.
  unfold sort_by_key. destruct (sort_keys l) as [keyed|e'] eqn:Hk; [done|].
  intros [= ->]. destruct (sort_keys_raise l e Hk) as (l1 & f & l2 & -> & Hf & Hl1).
  exists l1, f, l2. split_and!; [done|done| |done].
  destruct (is_plain f) eqn:Ha; [|done].
  by rewrite (is_plain_key f Ha) in Hf.
Qed.

Lemma is_image_sorted (entries names : list string) (f : string) :
  sort_by_key (List.filter is_image entries) = Ok names →
  f ∈ names ↔ f ∈ entries ∧ is_image f = true.
Proof.
  intros Hs. rewrite (sort_by_key_perm _ _ Hs), !list_elem_of_In.
  apply List.filter_In.
Qed.

(** What the task does once the listing has been sorted. *)
Lemma load_files_task_sorted (isRunning : nat → bool) (folder : string)
    (entries names : list string) :
  listdir folder = Listed entries →
  sort_by_key (List.filter is_image entries) = Ok names →
  load_files_task isRunning folder
  = (load_log (MsgLoading folder)
       :: files_loaded (join folder <$> names)
       :: load_thumbnails isRunning 0 folder names
       ++ [load_log (MsgLoadingDone (length names)); loading_finished],
     None).
Proof. intros Hl Hs. unfold load_files_task. by rewrite Hl, Hs. Qed.

End LoadingFacts.

(** X23: when the folder can be listed and the sort of line 199 returns,
    the loading task sends the file list once, right after its first log
    line: the entries with an image extension, each as often as listed,
    joined to the folder.  Thumbnails or warnings follow, for a first
    stretch of that list and in its order (for all of it when the thread
    is never stopped), then the summary line with the number of listed
    images, loaded or not, and [loading_finished] as the last signal.
    The names are in the order of their keys, no comparison of two keys
    raising.  The sort returns whenever the image names are plain, and
    the list is then in natural order. *)
Theorem load_files_task_listed `{OsPath} `{FolderLib} `{PyText}
    (isRunning : nat → bool) (folder : string) (entries : list string) :
  listdir folder = Listed entries →
  (Forall (λ f, is_plain f = true) (List.filter is_image entries) →
   sort_by_key (List.filter is_image entries)
   = Ok (sort_natural (List.filter is_image entries))) ∧
  (∀ names,
     sort_by_key (List.filter is_image entries) = Ok names →
     ∃ thumbs,
       load_files_task isRunning folder
       = (load_log (MsgLoading folder)
            :: files_loaded (join folder <$> names)
            :: thumbs ++ [load_log (MsgLoadingDone (length names)); loading_finished],
          None) ∧
       Permutation names (List.filter is_image entries) ∧
       (∀ f, f ∈ names ↔ f ∈ entries ∧ is_image f = true) ∧
       thumbs `prefix_of` load_thumbnail folder <$> names ∧
       ((∀ k, isRunning k = true) → thumbs = load_thumbnail folder <$> names) ∧
       (∃ keyed, keyed.*2 = names ∧
                 Forall (λ a, natural_sort_key_of a.2 = Ok a.1) keyed ∧
                 Sorted keyed_le keyed) ∧
       (Forall (λ f, is_plain f = true) names →
        names = sort_natural (List.filter is_image entries) ∧
        Sorted natural_le names)).
Proof.
  intros Hlist. split; [apply sort_by_key_plain|].
  intros names Hsort.
  exists (load_thumbnails isRunning 0 folder names).
  split_and!.
  - by apply load_files_task_sorted with entries.
  - by apply sort_by_key_perm.
  - intros f. by apply is_image_sorted.
  - apply load_thumbnails_prefix.
  - intros Hrun. by apply load_thumbnails_running.
  - by apply sort_by_key_keyed with (List.filter is_image entries).
  - intros Hplain.
    assert (names = sort_natural (List.filter is_image entries)) as ->.
    { assert (Forall (λ f, is_plain f = true) (List.filter is_image entries)) as Hl.
      { by rewrite <- (sort_by_key_perm _ _ Hsort). }
      rewrite (sort_by_key_plain _ Hl) in Hsort. by injection Hsort as <-. }
    split; [done|]. apply SortFacts.sort_natural_sorted.
Qed.

Lemma load_files_task_listed_witness :
  (@load_files_task posix_path sample_folder sample_text (λ _, true) "/deck").1 !! 1%nat
  = Some (@files_loaded sample_folder
            ["/deck/cover.jpeg"; "/deck/slide1.png"; "/deck/slide2.png";
             "/deck/slide10.PNG"]) ∧
  Sorted natural_le ["cover.jpeg"; "slide1.png"; "slide2.png"; "slide10.PNG"].
Proof.
  destruct (proj2 (@load_files_task_listed posix_path sample_folder sample_text
                     (λ _, true) "/deck"
                     ["slide10.PNG"; "notes.txt"; "slide2.png"; "cover.jpeg";
                      "slide1.png"] eq_refl)
              ["cover.jpeg"; "slide1.png"; "slide2.png"; "slide10.PNG"] eq_refl)
    as (thumbs & Htask & _ & _ & _ & _ & _ & Hsorted).
  split.
  - reflexivity.
  - apply Hsorted. repeat constructor.
Defined.

(** X24: when the folder cannot be listed, or is listed but the sort of
    line 199 raises, the task sends log lines only: neither a file list
    nor [loading_finished].  A missing folder is reported in a second
    log line and the task returns.  Any other error of the listing, and
    the error of the sort, leave the task as an exception after the
    first log line; the error of the sort is the one [natural_sort_key]
    raises on the first image entry without a key, a name that is not
    plain. *)
Theorem load_files_task_failed `{OsPath} `{FolderLib} `{PyText}
    (isRunning : nat → bool) (folder : string) :
  (∀ entries names,
     listdir folder = Listed entries →
     sort_by_key (List.filter is_image entries) ≠ Ok names) →
  (∀ s, s ∈ (load_files_task isRunning folder).1 → ∃ m, s = load_log m) ∧
  (listdir folder = NotFound →
   load_files_task isRunning folder
   = ([load_log (MsgLoading folder); load_log (MsgFolderNotFound folder)], None)) ∧
  (∀ e, listdir folder = ListFailed e →
        load_files_task isRunning folder = ([load_log (MsgLoading folder)], Some e)) ∧
  (∀ entries, listdir folder = Listed entries →
     ∃ e l1 f l2,
       load_files_task isRunning folder = ([load_log (MsgLoading folder)], Some e) ∧
       List.filter is_image entries = l1 ++ f :: l2 ∧
       natural_sort_key_of f = Raise e ∧
       is_plain f = false ∧
       ∀ g, g ∈ l1 → ∃ k, natural_sort_key_of g = Ok k).
Proof.
  intros Hno. unfold load_files_task.
  destruct (listdir folder) as [entries| |e] eqn:Hl.
  - destruct (sort_by_key (List.filter is_image entries)) as [names|e] eqn:Hs;
      [by destruct (Hno entries names)|].
    split_and!; [|done|done|].
    + simpl. intros s Hs'. apply list_elem_of_singleton in Hs' as ->. by eexists.
    + intros entries' [= <-].
      destruct (sort_by_key_raise _ e Hs) as (l1 & f & l2 & Hsplit & Hf & Ha & Hl1).
      by exists e, l1, f, l2.
  - split_and!; [|done|done|done]. simpl. intros s Hs.
    apply elem_of_cons in Hs as [->|Hs]; [by eexists|].
    apply list_elem_of_singleton in Hs as ->. by eexists.
  - split_and!; [|done|by intros e' [= <-]|done]. simpl. intros s Hs.
    apply list_elem_of_singleton in Hs as ->. by eexists.
Qed.

Lemma load_files_task_failed_witness :
  ∃ e,
    @load_files_task posix_path sample_folder sample_text (λ _, true) "/scans"
    = ([@load_log sample_folder (MsgLoading "/scans")], Some e) ∧
    @natural_sort_key_of sample_text "②1.png" = Raise e.
Proof.
  destruct (proj2 (proj2 (proj2
              (@load_files_task_failed posix_path sample_folder sample_text
                 (λ _, true) "/scans"
                 ltac:(intros entries names [= <-]; discriminate))))
              ["page2.png"; "②1.png"; "page1.png"] eq_refl)
    as (e & l1 & f & l2 & Htask & _ & _ & _ & _).
  exists e. split; [exact Htask|].
  vm_compute in Htask. injection Htask as <-. reflexivity.
Defined.

(** X25: a listed entry takes part exactly when its name, lower-cased,
    ends in [.png], [.jpg] or [.jpeg]; upper-case extensions count, and
    the extension may be the whole name. *)
Theorem is_image_spec (f : string) :
  is_image f = true ↔
  ∃ pre ext, lower f = String.append pre ext ∧ ext ∈ [".png"; ".jpg"; ".jpeg"].
Proof.
  unfold is_image. rewrite !orb_true_iff, !endswith_spec. split.
  - intros [[[pre Hf]|[pre Hf]]|[pre Hf]]; eexists pre, _; (split; [exact Hf|]).
    + apply list_elem_of_here.
    + apply list_elem_of_further, list_elem_of_here.
    + do 2 apply list_elem_of_further. apply list_elem_of_here.
  - intros (pre & ext & Hf & Hext).
    apply elem_of_cons in Hext as [->|Hext]; [left; left; by exists pre|].
    apply elem_of_cons in Hext as [->|Hext]; [left; right; by exists pre|].
    apply list_elem_of_singleton in Hext as ->. right. by exists pre.
Qed.

(** X26: loading shows the images of the folder.  When [basename]
    undoes [join] on the entries, applying the file list the task sends
    gives the window exactly one thumbnail per image entry name, each
    selected and not filtered. *)
Theorem load_then_show `{OsPath} `{FolderLib} `{PyText}
    (isRunning : nat → bool) (folder : string) (entries file_paths : list string)
    (win : MainWindow) :
  listdir folder = Listed entries →
  (∀ f, f ∈ entries → basename (join folder f) = f) →
  files_loaded file_paths ∈ (load_files_task isRunning folder).1 →
  (∀ name, name ∈ dom (thumbnail_widgets (on_files_loaded file_paths win)) ↔
           name ∈ entries ∧ is_image name = true) ∧
  (∀ name w, thumbnail_widgets (on_files_loaded file_paths win) !! name = Some w →
             w = new_thumbnail (join folder name)).
Proof.
  intros Hlist Hbase Hsent.
  destruct (sort_by_key (List.filter is_image entries)) as [names|e] eqn:Hsort.
  2: { unfold load_files_task in Hsent. rewrite Hlist, Hsort in Hsent.
       simpl in Hsent. by apply list_elem_of_singleton in Hsent. }
  assert (file_paths = join folder <$> names) as ->.
  { rewrite (load_files_task_sorted isRunning folder entries names Hlist Hsort)
      in Hsent. simpl in Hsent.
    apply elem_of_cons in Hsent as [[=]|Hsent].
    apply elem_of_cons in Hsent as [[= ->]|Hsent]; [done|].
    apply elem_of_app in Hsent as [Hsent|Hsent].
    - destruct (load_thumbnails_prefix isRunning 0 folder names) as [k Hk].
      assert (files_loaded file_paths ∈ load_thumbnail folder <$> names) as Hin.
      { rewrite Hk. apply elem_of_app. by left. }
      apply list_elem_of_fmap in Hin as (f & Hf & _).
      unfold load_thumbnail in Hf. by destruct (QImage_load (join folder f)).
    - apply elem_of_cons in Hsent as [[=]|Hsent].
      by apply list_elem_of_singleton in Hsent. }
  assert (∀ f, f ∈ names → basename (join folder f) = f) as Hbase'.
  { intros f Hf. apply Hbase.
    by apply (is_image_sorted entries names f Hsort) in Hf as [Hf _]. }
  pose proof (basename_join_names folder names Hbase') as Hnames.
  split.
  - intros name. rewrite elem_of_dom. unfold on_files_loaded. simpl.
    rewrite loaded_fold_is_Some, lookup_empty, Hnames,
      <- (is_image_sorted entries names name Hsort).
    split; [by intros [[? ?]|?]|auto].
  - intros name w Hw. unfold on_files_loaded in Hw. simpl in Hw.
    apply loaded_fold_lookup in Hw as [[Hw _]|(l1 & q & l2 & Hq & Hname & _ & ->)];
      [done|].
    assert (q ∈ join folder <$> names) as Hin.
    { rewrite Hq. apply elem_of_app. right. apply list_elem_of_here. }
    apply list_elem_of_fmap in Hin as (f & -> & Hf).
    rewrite (Hbase' f Hf) in Hname. by subst.
Qed.

Lemma load_then_show_witness :
  "notes.txt" ∈ dom (thumbnail_widgets
                (@on_files_loaded posix_path
                   ["/deck/cover.jpeg"; "/deck/slide1.png"; "/deck/slide2.png";
                    "/deck/slide10.PNG"] new_window)) ↔
  "notes.txt" ∈ ["slide10.PNG"; "notes.txt"; "slide2.png"; "cover.jpeg"; "slide1.png"] ∧
  is_image "notes.txt" = true.
Proof.
  apply (proj1 (@load_then_show posix_path sample_folder sample_text (λ _, true) "/deck"
           ["slide10.PNG"; "notes.txt"; "slide2.png"; "cover.jpeg"; "slide1.png"]
           ["/deck/cover.jpeg"; "/deck/slide1.png"; "/deck/slide2.png";
            "/deck/slide10.PNG"] new_window
           eq_refl
           ltac:(intros f Hf;
                 repeat (apply elem_of_cons in Hf as [->|Hf]; [reflexivity|]);
                 by apply elem_of_nil in Hf)
           ltac:(apply list_elem_of_further, list_elem_of_here))).
Defined.
